(** * throttler: a CPU-usage based request throttler (Go), embedded in Rocq

    The Go package keeps one shared [float64], the percentage [r] of allowed
    requests, behind an atomic pointer.  [Start] runs a control loop that
    samples the CPU usage on one ticker and, on a second ticker, averages the
    samples and moves [r] by [K * (L - avg)].  [Allow] compares a random draw
    with [r].  [Stop] sends on a channel that the loop selects on.

    Go's [float64] is IEEE 754 binary64 with round-to-nearest-even, which is
    what Rocq's primitive [float] is; the embedding therefore uses [float]
    and its operations, and reasons about them through their specification
    ([SpecFloat], related to the primitives by [FloatAxioms]).  Every
    operation is rounded on its own, as the Go compiler does on amd64; it
    does not model a fused multiply-add for [r + K * (L - avg)].

    The loop is event driven: the embedding runs it on the cases its
    [select] receives, one step per case, among the steps of the goroutines
    that call [Allow], [Start] and [Stop].  What [t.cpuUsage()] returns on a
    sample tick comes with the event, and the pseudo-random sequence of
    [t.rand] with the throttler. *)

From Stdlib Require Import ZArith Lia List Bool String.
From Stdlib Require Import Floats Uint63.
Import ListNotations.

Set Warnings "-inexact-float".

Local Open Scope Z_scope.

(** * Definitions *)

(** ** Binary64 rounding: the notions its facts are stated with *)
Module F64.

(** The float of sign [sx] with mantissa [q >= 0] at exponent [e], as the
    last [match] of [binary_round_aux] builds it: an exponent above the
    largest one gives an infinity. *)
Definition pack (sx : bool) (q e : Z) : spec_float :=
  match q with
  | Z0 => S754_zero sx
  | Zpos mq => if e <=? emax - prec then S754_finite sx mq e else S754_infinity sx
  | Zneg _ => S754_nan
  end.

(** [rounded m n q]: [q] is an integer nearest to [m / 2^n]. *)
Definition rounded (m n q : Z) : Prop :=
  0 <= q /\ 2 * (q * 2 ^ n) <= 2 * m + 2 ^ n /\ 2 * m <= 2 * (q * 2 ^ n) + 2 ^ n.

(** What [binary_round_aux] does with the rounded mantissa [q1] at exponent
    [e1]: a mantissa that rounding carried to [2^53] is renormalised. *)
Definition finish (sx : bool) (q1 e1 : Z) : spec_float :=
  if q1 =? 2 ^ 53 then pack sx (2 ^ 52) (e1 + 1) else pack sx q1 e1.

(** The shift record of a mantissa with nothing shifted out yet. *)
Definition exact_record (m : Z) : shr_record :=
  {| shr_m := m; shr_r := false; shr_s := false |}.

(** The invariant of [k] right shifts of [m]: the mantissa left, the round
    bit and the sticky bit account for the bits shifted out. *)
Definition shifted (m : Z) (k : nat) (mrs : shr_record) : Prop :=
  exists t : Z,
    0 <= shr_m mrs /\ 0 <= t < 2 ^ Z.of_nat k /\
    m = shr_m mrs * 2 ^ Z.of_nat (S k)
        + Z.b2z (shr_r mrs) * 2 ^ Z.of_nat k + t /\
    (shr_s mrs = false <-> t = 0).

(** [near c q1 e1 m e]: [q1 * 2^e1] is within half a unit of [2^e1] of
    [m * 2^e], both scaled by [2^-c] to stay in [Z]. *)
Definition near (c q1 e1 m e : Z) : Prop :=
  2 * (q1 * 2 ^ (e1 - c)) <= 2 * (m * 2 ^ (e - c)) + 2 ^ (e1 - c) /\
  2 * (m * 2 ^ (e - c)) <= 2 * (q1 * 2 ^ (e1 - c)) + 2 ^ (e1 - c).

(** [0 <= f]: a zero of either sign, a positive number or [+infinity]. *)
Definition nonneg (f : spec_float) : bool :=
  match f with
  | S754_zero _ | S754_finite false _ _ | S754_infinity false => true
  | _ => false
  end.

(** [f <= 0]: a zero of either sign, a negative number or [-infinity]. *)
Definition nonpos (f : spec_float) : bool :=
  match f with
  | S754_zero _ | S754_finite true _ _ | S754_infinity true => true
  | _ => false
  end.

Definition is_nan_sf (f : spec_float) : bool :=
  match f with S754_nan => true | _ => false end.

(** The sign of a number that is not a NaN lies on the side [sx]. *)
Definition on_side (sx : bool) (f : spec_float) : bool :=
  if sx then nonpos f else nonneg f.

(** The constants 100, 64 and 1 as mantissa and exponent. *)
Definition c100 : spec_float := S754_finite false 7036874417766400 (-46).
Definition c64 : spec_float := S754_finite false 4503599627370496 (-46).
Definition c1 : spec_float := S754_finite false 4503599627370496 (-52).

End F64.

(** ** The throttler *)
Module Throttler.

Local Open Scope float_scope.

(** Go's [error] values by their text; [None] stands for [nil]. *)
Definition error := string.

(** [var ErrAlreadyStarted = errors.New(...)] *)
Definition ErrAlreadyStarted : error := "throttler has already been started"%string.

(** A [chan struct{}]: the zero value is the nil channel, on which a send
    blocks forever and a receive is never ready; [make] gives an unbuffered
    channel, on which a send completes when a receiver takes it. *)
Inductive chan := nil_chan | made_chan.

(** [*rand.Rand]: the pseudo-random sequence its seed fixes, and how many
    draws were taken.  [Float64] returns the next number and advances. *)
Record Rand := mkRand { draws : nat -> float; cursor : nat }.

Definition Float64 (g : Rand) : float * Rand :=
  (draws g (cursor g), {| draws := draws g; cursor := S (cursor g) |}).

(** What [math/rand] promises of [Float64]: a number of [[0.0,1.0)]. *)
Definition unit_draws (g : Rand) : Prop :=
  forall n, (0 <=? draws g n) = true /\ (draws g n <? 1) = true.

(** [type T struct].  [r] is the [float64] that the pointer [t.r] refers to;
    every [atomic.StorePointer] installs a fresh one, and [r_stores] counts
    them.  [cpuUsage] is not a field here: what a call of it returns comes
    with the sample-tick event.  [mu] guards [started]; the embedding runs
    each locked region as one step. *)
Record T := mkT {
  L : float;
  R : float;
  K : float;
  r : float;
  r_stores : nat;
  rand : Rand;
  interval : Z;
  intervalStep : Z;
  done : chan;
  started : bool
}.

Definition StorePointer (t : T) (v : float) : T :=
  {| L := L t; R := R t; K := K t; r := v; r_stores := S (r_stores t);
     rand := rand t; interval := interval t; intervalStep := intervalStep t;
     done := done t; started := started t |}.

Definition LoadPointer (t : T) : float := r t.

Definition set_started (t : T) (b : bool) : T :=
  {| L := L t; R := R t; K := K t; r := r t; r_stores := r_stores t;
     rand := rand t; interval := interval t; intervalStep := intervalStep t;
     done := done t; started := b |}.

Definition set_rand (t : T) (g : Rand) : T :=
  {| L := L t; R := R t; K := K t; r := r t; r_stores := r_stores t;
     rand := g; interval := interval t; intervalStep := intervalStep t;
     done := done t; started := started t |}.

(** [func New(cpuLimit, k float64, interval, intervalStep time.Duration) *T].
    The struct literal names no [done]: the channel stays nil.  [seed] is
    the sequence that [rand.NewSource(time.Now().UnixNano())] fixes. *)
Definition New (cpuLimit k : float) (interval intervalStep : Z) (seed : nat -> float) : T :=
  StorePointer
    {| L := cpuLimit; R := 0; K := k; r := 0; r_stores := 0;
       rand := {| draws := seed; cursor := 0 |};
       interval := interval; intervalStep := intervalStep;
       done := nil_chan; started := false |}
    100.

(** [func (t *T) Allow() bool] *)
Definition Allow (t : T) : bool * T :=
  let (u, g) := Float64 (rand t) in
  (u * 100 <? LoadPointer t, set_rand t g).

(** The locals of a running [Start]: the sample buffer, whether each ticker
    still runs, and what was logged. *)
Record Loop := mkLoop {
  stats : list float;
  itk : bool;
  istk : bool;
  logged : list string
}.

(** What the [select] of the control loop can receive. *)
Inductive event :=
| recv_done
| tick_itk
| tick_istk (cpuUsage : float) (err : option error).

Inductive outcome :=
| Continue (t : T) (l : Loop)
| Return (t : T) (l : Loop) (err : option error).

(** [float64(len(stats))]: Go rounds an [int] to the nearest [float64], as
    [of_uint63] does; a slice has fewer than [2^63] elements. *)
Definition float64_of_len (n : nat) : float := of_uint63 (of_Z (Z.of_nat n)).

(** [for _, stat := range stats { sum += stat }] *)
Definition sum_stats (l : list float) : float := fold_left (fun sum stat => sum + stat) l 0.

Definition average (l : list float) : float := sum_stats l / float64_of_len (List.length l).

(** [step := t.K * (t.L - avg)] *)
Definition step_of (t : T) (avg : float) : float := K t * (L t - avg).

(** The [switch] of the evaluation branch: the first case whose condition
    holds runs; with a NaN on either side neither does. *)
Definition adjust (t : T) (avg : float) : T :=
  let r := LoadPointer t in
  let step := step_of t avg in
  let newR := r + step in
  if L t <=? avg then
    StorePointer t (if newR <? 0 then 0 else newR)
  else if avg <? L t then
    StorePointer t (if 100 <? newR then 100 else newR)
  else t.

(** One iteration of [for { select { ... } }] on the case that was received. *)
Definition loop_body (t : T) (l : Loop) (ev : event) : outcome :=
  match ev with
  | recv_done =>
      Return t {| stats := stats l; itk := false; istk := false; logged := logged l |} None
  | tick_itk =>
      match stats l with
      | [] =>
          Continue t {| stats := stats l; itk := itk l; istk := istk l;
                        logged := logged l
                                  ++ ["could not collect any stats during the interval"%string] |}
      | _ :: _ =>
          Continue (adjust t (average (stats l)))
                   {| stats := []; itk := itk l; istk := istk l; logged := logged l |}
      end
  | tick_istk cpuUsage (Some err) =>
      Continue t {| stats := stats l; itk := itk l; istk := istk l;
                    logged := logged l ++ [("could not collect CPU stats: " ++ err)%string] |}
  | tick_istk cpuUsage None =>
      Continue t {| stats := stats l ++ [cpuUsage]; itk := itk l; istk := istk l;
                    logged := logged l |}
  end.

(** The head of [Start], up to the loop: the check-and-set of [started]
    under the mutex, the store of 100, the two tickers and the empty buffer. *)
Definition Start_enter (t : T) : error + T * Loop :=
  if started t then inl ErrAlreadyStarted
  else inr (StorePointer (set_started t true) 100,
            {| stats := []; itk := true; istk := true; logged := [] |}).

(** The deferred function of [Start]. *)
Definition Start_exit (t : T) : T := set_started t false.

(** *** The goroutines around one throttler

    [Start] runs in a goroutine of its own ([go th.Start()]); other
    goroutines call [Allow], [Start] and [Stop].  [Stop] is the one line
    [t.done <- struct{}{}]: its caller waits in the send until the loop
    receives. *)
Inductive goroutine :=
| idle
| looping (l : Loop)
| returned (l : Loop) (err : option error).

Record Sys := mkSys {
  thr : T;
  loop : goroutine;
  senders : nat
}.

Inductive action :=
| call_Start
| call_Stop
| call_Allow
| fire (ev : event).

Inductive reply :=
| no_reply
| Start_returned (err : option error)
| Allow_returned (b : bool)
| Stop_returned.

(** Whether a case of the [select] can be taken. *)
Definition ready (s : Sys) (l : Loop) (ev : event) : bool :=
  match ev with
  | recv_done =>
      match done (thr s) with
      | nil_chan => false
      | made_chan => negb (Nat.eqb (senders s) 0)
      end
  | tick_itk => itk l
  | tick_istk _ _ => istk l
  end.

(** One step of one goroutine; [None] when the action cannot happen in [s]. *)
Definition step (s : Sys) (a : action) : option (Sys * list reply) :=
  match a with
  | call_Start =>
      match Start_enter (thr s) with
      | inl e => Some (s, [Start_returned (Some e)])
      | inr (t, l) => Some ({| thr := t; loop := looping l; senders := senders s |}, [])
      end
  | call_Stop =>
      Some ({| thr := thr s; loop := loop s; senders := S (senders s) |}, [])
  | call_Allow =>
      let (b, t) := Allow (thr s) in
      Some ({| thr := t; loop := loop s; senders := senders s |}, [Allow_returned b])
  | fire ev =>
      match loop s with
      | looping l =>
          if ready s l ev then
            match loop_body (thr s) l ev with
            | Continue t l' =>
                Some ({| thr := t; loop := looping l'; senders := senders s |}, [])
            | Return t l' err =>
                Some ({| thr := Start_exit t; loop := returned l' err;
                         senders := Nat.pred (senders s) |},
                      [Stop_returned; Start_returned err])
            end
          else None
      | _ => None
      end
  end.

Fixpoint run (s : Sys) (acts : list action) : option (Sys * list reply) :=
  match acts with
  | [] => Some (s, [])
  | a :: acts' =>
      match step s a with
      | None => None
      | Some (s1, out1) =>
          match run s1 acts' with
          | None => None
          | Some (s2, out2) => Some (s2, out1 ++ out2)
          end
      end
  end.

(** A process that has just built its throttler. *)
Definition boot (t : T) : Sys := {| thr := t; loop := idle; senders := 0 |}.

(** The rate as a percentage: [0 <= r <= 100]. *)
Definition in_range (x : float) : bool := (0 <=? x) && (x <=? 100).

(** The events of one evaluation window: a successful sample tick for each
    reading of [w], in order, then the evaluation tick. *)
Definition window (w : list float) : list action :=
  map (fun x => fire (tick_istk x None)) w ++ [fire tick_itk].

Definition windows (ws : list (list float)) : list action := flat_map window ws.

(** The rate a running throttler shows after the windows [ws]. *)
Definition rate_after (t : T) (ws : list (list float)) : option float :=
  match run (boot t) (call_Start :: windows ws) with
  | Some (s, _) => Some (LoadPointer (thr s))
  | None => None
  end.

(** The locals [l] with the buffer replaced. *)
Definition set_stats (l : Loop) (st : list float) : Loop :=
  {| stats := st; itk := itk l; istk := istk l; logged := logged l |}.

(** The throttler after the evaluation ticks of the windows [ws]. *)
Definition adjust_all (t : T) (ws : list (list float)) : T :=
  fold_left (fun t w => adjust t (average w)) ws t.

(** The actions that leave the rate alone: calls of [Allow] and sample
    ticks.  An evaluation tick is not one of them. *)
Definition before_evaluation (a : action) : bool :=
  match a with
  | call_Allow => true
  | fire (tick_istk _ _) => true
  | _ => false
  end.

(** *** The default sampler

    [cpu.TimesStat] of gopsutil, as far as [getCpuUsage] reads it: the CPU
    times by kind, in seconds. *)
Record TimesStat := mkTimesStat {
  User : float;
  System : float;
  Idle : float;
  Nice : float;
  Iowait : float;
  Irq : float;
  Softirq : float;
  Steal : float;
  Guest : float;
  GuestNice : float
}.

(** [func getCpuUsage() (float64, error)], on what [cpu.Times(false)]
    returned: the usage is 100 minus the idle share of the total. *)
Definition getCpuUsage (cpuStats : list TimesStat) (err : option error)
  : float * option error :=
  match err, cpuStats with
  | None, [st] =>
      let total := Idle st + Guest st + GuestNice st + Iowait st + Irq st + Nice st
                   + Softirq st + Steal st + System st + User st in
      (100 - (Idle st * 100) / total, None)
  | _, _ => (0, err)
  end.

(** The sample tick of a throttler whose [cpuUsage] is [getCpuUsage], as
    [New] sets it. *)
Definition sample_tick (cpuStats : list TimesStat) (err : option error) : event :=
  let (cpuUsage, e) := getCpuUsage cpuStats err in tick_istk cpuUsage e.

(** A run of sample ticks, each with what the sampler returned; the
    readings that were returned without an error, and the lines logged for
    the others. *)
Definition sample_ticks (rs : list (float * option error)) : list action :=
  map (fun p => fire (tick_istk (fst p) (snd p))) rs.

Definition readings (rs : list (float * option error)) : list float :=
  flat_map (fun p => match snd p with None => [fst p] | Some _ => [] end) rs.

Definition failures_logged (rs : list (float * option error)) : list string :=
  flat_map (fun p => match snd p with
                     | Some err => [("could not collect CPU stats: " ++ err)%string]
                     | None => []
                     end) rs.

Definition is_evaluation (a : action) : bool :=
  match a with fire tick_itk => true | _ => false end.

(** How many calls of [Allow] a schedule holds, and how many answers a
    list of replies. *)
Definition Allow_calls (acts : list action) : nat :=
  List.length (filter (fun a => match a with call_Allow => true | _ => false end) acts).

Definition Allow_answers (out : list reply) : nat :=
  List.length (filter (fun o => match o with Allow_returned _ => true | _ => false end) out).


End Throttler.

(** * Facts *)

(** ** Binary64 rounding, from its specification

    [SpecFloat] defines the operations on mantissa/exponent pairs by shifting
    and rounding.  This module derives what the throttler's proofs need: how a
    right shift rounds, what [binary_round_aux] returns on an exact positive
    input, and that rounding never crosses a representable number. *)
Module F64Facts.

Import F64.

Lemma digits2_pos_bounds (m : positive) :
  2 ^ (Zpos (digits2_pos m) - 1) <= Zpos m < 2 ^ Zpos (digits2_pos m).
Proof.
  induction m as [m IH | m IH | ]; cbn [digits2_pos].
  - rewrite Pos2Z.inj_succ.
    replace (Z.succ (Zpos (digits2_pos m)) - 1) with (Zpos (digits2_pos m) - 1 + 1) by lia.
    rewrite !Z.pow_succ_r, Z.pow_add_r by lia. lia.
  - rewrite Pos2Z.inj_succ.
    replace (Z.succ (Zpos (digits2_pos m)) - 1) with (Zpos (digits2_pos m) - 1 + 1) by lia.
    rewrite !Z.pow_succ_r, Z.pow_add_r by lia. lia.
  - cbn. lia.
Qed.

Lemma iter_pos_nat {A : Type} (f : A -> A) (p : positive) (x : A) :
  iter_pos f p x = Nat.iter (Pos.to_nat p) f x.
Proof.
  revert x; induction p as [p IH | p IH | ]; intros x; cbn [iter_pos].
  - rewrite !IH, Pos2Nat.inj_xI.
    replace (S (2 * Pos.to_nat p)) with (Pos.to_nat p + S (Pos.to_nat p))%nat by lia.
    now rewrite Nat.iter_add, Nat.iter_succ_r.
  - rewrite !IH, Pos2Nat.inj_xO.
    replace (2 * Pos.to_nat p)%nat with (Pos.to_nat p + Pos.to_nat p)%nat by lia.
    now rewrite Nat.iter_add.
  - reflexivity.
Qed.

Lemma shr_1_spec (M : Z) (r s : bool) :
  0 <= M ->
  shr_1 {| shr_m := M; shr_r := r; shr_s := s |}
  = {| shr_m := M / 2; shr_r := Z.odd M; shr_s := r || s |}.
Proof.
  intros HM. rewrite <- Z.div2_div.
  destruct M as [ | [p | p | ] | p]; try lia; reflexivity.
Qed.

Lemma shifted_first (m : Z) :
  0 <= m -> shifted m 0 (shr_1 (exact_record m)).
Proof.
  intros Hm. unfold exact_record. rewrite shr_1_spec by assumption.
  exists 0. cbn [shr_m shr_r shr_s orb].
  change (2 ^ Z.of_nat 0) with 1. change (2 ^ Z.of_nat 1) with 2.
  pose proof (Z.div_mod m 2 ltac:(lia)) as Hdm.
  rewrite Zmod_odd in Hdm.
  repeat split; try lia.
  - apply Z.div_pos; lia.
  - destruct (Z.odd m); cbn [Z.b2z]; lia.
Qed.

Lemma shifted_step (m : Z) (k : nat) (mrs : shr_record) :
  shifted m k mrs -> shifted m (S k) (shr_1 mrs).
Proof.
  intros (t & HM & Ht & Hm & Hs).
  destruct mrs as [M r s]; cbn [shr_m shr_r shr_s] in *.
  rewrite shr_1_spec by assumption.
  exists (Z.b2z r * 2 ^ Z.of_nat k + t). cbn [shr_m shr_r shr_s].
  pose proof (Z.div_mod M 2 ltac:(lia)) as Hdm.
  rewrite Zmod_odd in Hdm.
  assert (Hk : 0 < 2 ^ Z.of_nat k) by (apply Z.pow_pos_nonneg; lia).
  assert (H1 : 2 ^ Z.of_nat (S k) = 2 * 2 ^ Z.of_nat k)
    by (rewrite Nat2Z.inj_succ, Z.pow_succ_r; lia).
  assert (H2 : 2 ^ Z.of_nat (S (S k)) = 2 * 2 ^ Z.of_nat (S k))
    by (rewrite (Nat2Z.inj_succ (S k)), Z.pow_succ_r; lia).
  rewrite H2, H1 in *.
  repeat split.
  - apply Z.div_pos; lia.
  - destruct r; cbn [Z.b2z]; lia.
  - destruct r; cbn [Z.b2z]; lia.
  - destruct (Z.odd M); cbn [Z.b2z] in *; nia.
  - destruct r; cbn [orb Z.b2z]; intros H; [discriminate | ].
    apply Hs in H. lia.
  - destruct r; cbn [orb Z.b2z]; intros H; [lia | ].
    apply Hs. lia.
Qed.

Lemma shifted_iter (m : Z) (k : nat) :
  0 <= m -> shifted m k (Nat.iter (S k) shr_1 (exact_record m)).
Proof.
  intros Hm. induction k as [ | k IH].
  - now apply shifted_first.
  - rewrite Nat.iter_succ. now apply shifted_step.
Qed.

Lemma shr_round (m : Z) (p : positive) :
  0 <= m ->
  let mrs := iter_pos shr_1 p (exact_record m) in
  rounded m (Zpos p) (round_nearest_even (shr_m mrs) (loc_of_shr_record mrs)).
Proof.
  intros Hm mrs. subst mrs. rewrite iter_pos_nat.
  destruct (Pos2Nat.is_succ p) as [k Hk]. rewrite Hk.
  destruct (shifted_iter m k Hm) as (t & HM & Ht & Hmk & Hs).
  assert (Hp : Zpos p = Z.of_nat (S k)) by lia.
  rewrite Hp.
  assert (H1 : 2 ^ Z.of_nat (S k) = 2 * 2 ^ Z.of_nat k)
    by (rewrite Nat2Z.inj_succ, Z.pow_succ_r; lia).
  rewrite H1 in *.
  destruct (Nat.iter (S k) shr_1 (exact_record m)) as [M r s].
  cbn [shr_m shr_r shr_s] in *. unfold rounded.
  destruct r, s; cbn [loc_of_shr_record round_nearest_even Z.b2z] in *.
  - assert (t <> 0) by (intros E; apply Hs in E; discriminate). nia.
  - assert (t = 0) by now apply Hs.
    destruct (Z.even M); nia.
  - assert (t <> 0) by (intros E; apply Hs in E; discriminate). nia.
  - assert (t = 0) by now apply Hs. nia.
Qed.

Lemma fexp_eq (x : Z) : fexp prec emax x = Z.max (x - 53) (-1074).
Proof. reflexivity. Qed.

Lemma Zdigits2_small (q : Z) : 0 <= q < 2 ^ 53 -> Zdigits2 q <= 53.
Proof.
  intros [H0 H1]. destruct q as [ | p | p]; cbn [Zdigits2]; try lia.
  pose proof (digits2_pos_bounds p) as [Hlo _].
  destruct (Z_le_gt_dec (Zpos (digits2_pos p)) 53) as [ | Hgt]; [assumption | exfalso].
  assert (2 ^ 53 <= 2 ^ (Zpos (digits2_pos p) - 1)) by (apply Z.pow_le_mono_r; lia).
  lia.
Qed.

Lemma pack_of_record (sx : bool) (q e : Z) :
  match q with
  | Z0 => S754_zero sx
  | Zpos mq => if e <=? emax - prec then S754_finite sx mq e else S754_infinity sx
  | Zneg _ => S754_nan
  end = pack sx q e.
Proof. reflexivity. Qed.

(** [binary_round_aux] on an exact positive mantissa whose exponent is not
    above the target exponent [e1]: the mantissa is rounded to nearest at
    [e1], and renormalised if the rounding carried. *)
Lemma binary_round_aux_exact (sx : bool) (m : positive) (e : Z) :
  let e1 := fexp prec emax (Zpos (digits2_pos m) + e) in
  e <= e1 ->
  exists q1 : Z,
    rounded (Zpos m) (e1 - e) q1 /\ q1 <= 2 ^ 53 /\
    binary_round_aux prec emax sx (Zpos m) e loc_Exact = finish sx q1 e1.
Proof.
  intros e1 He. pose proof (digits2_pos_bounds m) as [Hlo Hhi].
  assert (He1 : e1 = Z.max (Zpos (digits2_pos m) + e - 53) (-1074)) by reflexivity.
  unfold binary_round_aux, shr_fexp at 1.
  cbn [Zdigits2 shr_record_of_loc]. fold e1.
  destruct (e1 - e) as [ | p | p] eqn:Hn; try lia.
  - (* no shift: the mantissa already has at most 53 bits *)
    cbn [shr round_nearest_even shr_m shr_r shr_s loc_of_shr_record].
    unfold shr_fexp. cbn [Zdigits2 shr_record_of_loc]. fold e1. rewrite Hn.
    cbn [shr shr_m].
    assert (Hd : Zpos (digits2_pos m) <= 53) by lia.
    assert (Hm : Zpos m < 2 ^ 53).
    { apply Z.lt_le_trans with (1 := Hhi). apply Z.pow_le_mono_r; lia. }
    exists (Zpos m). split; [ | split; [lia | ]].
    + unfold rounded. change (2 ^ 0) with 1. lia.
    + unfold finish. replace (Zpos m =? 2 ^ 53) with false by (symmetry; apply Z.eqb_neq; lia).
      replace e1 with e by lia. reflexivity.
  - (* a right shift by [p] bits, then rounding *)
    cbn [shr]. fold (exact_record (Zpos m)).
    pose proof (shr_round (Zpos m) p ltac:(lia)) as Hr. cbv zeta in Hr.
    set (q1 := round_nearest_even _ _) in *.
    assert (Hpow : 2 ^ Zpos (digits2_pos m) <= 2 ^ 53 * 2 ^ Zpos p).
    { rewrite <- Z.pow_add_r by lia. apply Z.pow_le_mono_r; lia. }
    assert (Hp2 : 0 < 2 ^ Zpos p) by (apply Z.pow_pos_nonneg; lia).
    assert (Hq1 : q1 <= 2 ^ 53) by (destruct Hr as (_ & Hr1 & _); nia).
    exists q1. split; [exact Hr | split; [exact Hq1 | ]].
    replace (e + Zpos p) with e1 by lia.
    unfold finish. destruct (Z.eqb_spec q1 (2 ^ 53)) as [Heq | Hne].
    + rewrite Heq. unfold shr_fexp.
      change (Zdigits2 (2 ^ 53)) with 54. rewrite fexp_eq.
      replace (Z.max (54 + e1 - 53) (-1074) - e1) with 1 by lia.
      reflexivity.
    + assert (Hd : Zdigits2 q1 <= 53) by (apply Zdigits2_small; destruct Hr; lia).
      unfold shr_fexp. rewrite fexp_eq.
      destruct (Z.max (Zdigits2 q1 + e1 - 53) (-1074) - e1) as [ | p' | p'] eqn:Hn2; try lia;
        cbn [shr shr_record_of_loc shr_m]; apply pack_of_record.
Qed.

Lemma pow2_pos (a : Z) : 0 <= a -> 0 < 2 ^ a.
Proof. intros; apply Z.pow_pos_nonneg; lia. Qed.

Lemma pow2_add (a b : Z) : 0 <= a -> 0 <= b -> 2 ^ (a + b) = 2 ^ a * 2 ^ b.
Proof. intros; now apply Z.pow_add_r. Qed.

Lemma pow2_le (a b : Z) : a <= b -> 2 ^ a <= 2 ^ b.
Proof. intros; apply Z.pow_le_mono_r; lia. Qed.

Lemma rounded_near (c q1 e1 m e : Z) :
  c <= e -> e <= e1 -> rounded m (e1 - e) q1 -> near c q1 e1 m e.
Proof.
  intros Hc He (H0 & H1 & H2). unfold near.
  replace (e1 - c) with ((e1 - e) + (e - c)) by lia.
  rewrite pow2_add by lia.
  pose proof (pow2_pos (e - c) ltac:(lia)). nia.
Qed.

Lemma canonical_facts (m : positive) (e : Z) :
  bounded prec emax m e = true ->
  -1074 <= e <= 971 /\ Zpos m < 2 ^ 53 /\ (-1074 < e -> 2 ^ 52 <= Zpos m) /\
  fexp prec emax (Zpos (digits2_pos m) + e) = e.
Proof.
  unfold bounded, canonical_mantissa. rewrite andb_true_iff, Z.eqb_eq, Z.leb_le, fexp_eq.
  change (emax - prec) with 971. intros [Hc He].
  pose proof (digits2_pos_bounds m) as [Hlo Hhi].
  repeat split; try lia.
  - apply Z.lt_le_trans with (1 := Hhi). apply pow2_le. lia.
  - intros Hn. apply Z.le_trans with (2 := Hlo). apply pow2_le. lia.
Qed.

Lemma SFleb_pos_pos (m1 : positive) (e1 : Z) (m2 : positive) (e2 : Z) :
  SFleb (S754_finite false m1 e1) (S754_finite false m2 e2) = true
  <-> e1 < e2 \/ (e1 = e2 /\ Zpos m1 <= Zpos m2).
Proof.
  unfold SFleb, SFcompare. fold (Pos.compare m1 m2).
  destruct (Z.compare_spec e1 e2); [ | split; [lia | reflexivity] | split; [discriminate | lia]].
  destruct (Pos.compare_spec m1 m2); split; intros; try reflexivity; try discriminate; lia.
Qed.

(** The order [SFcompare] decides on canonical positive numbers is the order
    of their values. *)
Lemma SFleb_value (m1 : positive) (e1 : Z) (m2 : positive) (e2 c : Z) :
  bounded prec emax m1 e1 = true -> bounded prec emax m2 e2 = true ->
  c <= e1 -> c <= e2 ->
  SFleb (S754_finite false m1 e1) (S754_finite false m2 e2) = true ->
  Zpos m1 * 2 ^ (e1 - c) <= Zpos m2 * 2 ^ (e2 - c).
Proof.
  intros H1 H2 Hc1 Hc2 Hle.
  apply canonical_facts in H1. destruct H1 as (He1 & Hm1 & _).
  apply canonical_facts in H2. destruct H2 as (He2 & _ & Hm2 & _).
  apply SFleb_pos_pos in Hle. destruct Hle as [Hlt | [Heq Hm]].
  - specialize (Hm2 ltac:(lia)).
    replace (e2 - c) with ((e2 - e1 - 1) + (1 + (e1 - c))) by lia.
    rewrite !pow2_add by lia. change (2 ^ 1) with 2.
    pose proof (pow2_pos (e1 - c) ltac:(lia)) as HP.
    pose proof (pow2_pos (e2 - e1 - 1) ltac:(lia)) as HQ.
    set (P := 2 ^ (e1 - c)) in *. set (Q := 2 ^ (e2 - e1 - 1)) in *.
    change (2 ^ 53) with 9007199254740992 in *.
    change (2 ^ 52) with 4503599627370496 in *.
    assert (Zpos m1 * P <= 2 * (Zpos m2 * P)) by nia.
    assert (1 * (2 * (Zpos m2 * P)) <= Q * (2 * (Zpos m2 * P)))
      by (apply Z.mul_le_mono_nonneg_r; nia).
    lia.
  - subst e2. pose proof (pow2_pos (e1 - c) ltac:(lia)). nia.
Qed.

(** Rounding does not cross a representable number: the value [m * 2^e],
    when at most [Mx * 2^Ex], rounds to a float that is at most that one. *)
Lemma finish_le (m : positive) (e q1 : Z) (Mx : positive) (Ex c : Z) :
  let e1 := fexp prec emax (Zpos (digits2_pos m) + e) in
  bounded prec emax Mx Ex = true ->
  c <= e -> c <= e1 -> c <= Ex ->
  0 <= q1 -> near c q1 e1 (Zpos m) e ->
  Zpos m * 2 ^ (e - c) <= Zpos Mx * 2 ^ (Ex - c) ->
  SFleb (finish false q1 e1) (S754_finite false Mx Ex) = true.
Proof.
  intros e1 HX Hce Hce1 HcX Hq [Hn1 Hn2] Hv.
  apply canonical_facts in HX. destruct HX as (HEx & HMx & HMx' & _).
  pose proof (digits2_pos_bounds m) as [Hlo Hhi].
  assert (He1 : e1 = Z.max (Zpos (digits2_pos m) + e - 53) (-1074)) by reflexivity.
  pose proof (pow2_pos (e - c) ltac:(lia)) as HP.
  pose proof (pow2_pos (Ex - c) ltac:(lia)) as HPX.
  pose proof (pow2_pos (e1 - c) ltac:(lia)) as HP1.
  assert (HA : e1 <= Ex).
  { destruct (Z_le_gt_dec e1 Ex) as [ | Hgt]; [assumption | exfalso].
    assert (H53 : 2 ^ 53 * 2 ^ (Ex - c) <= 2 ^ (Zpos (digits2_pos m) - 1) * 2 ^ (e - c)).
    { rewrite <- !pow2_add by lia. apply pow2_le. lia. }
    nia. }
  unfold finish. destruct (Z.eqb_spec q1 (2 ^ 53)) as [Hcarry | Hnc].
  - (* carry: [2^52] at exponent [e1 + 1] *)
    assert (Hlt : e1 < Ex).
    { destruct (Z_lt_ge_dec e1 Ex) as [ | Hge]; [assumption | exfalso].
      assert (e1 = Ex) by lia. subst q1. replace (e1 - c) with (Ex - c) in * by lia. nia. }
    unfold pack. change (2 ^ 52) with (Zpos 4503599627370496).
    replace (e1 + 1 <=? emax - prec) with true
      by (symmetry; apply Z.leb_le; change (emax - prec) with 971; lia).
    apply SFleb_pos_pos.
    destruct (Z.eq_dec (e1 + 1) Ex) as [Heq | Hne]; [right | left; lia].
    split; [assumption | ]. change (2 ^ 52) with 4503599627370496 in HMx'. lia.
  - unfold pack. destruct q1 as [ | mq | mq]; try lia.
    + reflexivity.
    + replace (e1 <=? emax - prec) with true
        by (symmetry; apply Z.leb_le; change (emax - prec) with 971; lia).
      apply SFleb_pos_pos.
      destruct (Z.eq_dec e1 Ex) as [Heq | Hne]; [right | left; lia].
      split; [assumption | ]. replace (e1 - c) with (Ex - c) in * by lia. nia.
Qed.

Lemma iter_xO_value (m p : positive) : Zpos (Pos.iter xO m p) = Zpos m * 2 ^ Zpos p.
Proof.
  change (Pos.iter xO m p) with (shift_pos p m).
  rewrite shift_pos_correct, Z.pow_pos_fold. lia.
Qed.

Lemma iter_xO_digits (m p : positive) :
  digits2_pos (Pos.iter xO m p) = (digits2_pos m + p)%positive.
Proof.
  induction p as [ | p IH] using Pos.peano_ind.
  - cbn. lia.
  - rewrite Pos.iter_succ. cbn [digits2_pos]. rewrite IH. lia.
Qed.

Lemma shl_align_value (m : positive) (e ez : Z) :
  ez <= e -> Zpos (fst (shl_align m e ez)) = Zpos m * 2 ^ (e - ez).
Proof.
  intros He. unfold shl_align.
  destruct (ez - e) as [ | p | p] eqn:Hd; try lia; cbn [fst].
  - replace (e - ez) with 0 by lia. change (2 ^ 0) with 1. lia.
  - rewrite iter_xO_value. f_equal. f_equal. lia.
Qed.

(** [binary_round] first shifts the mantissa left when the exponent is above
    the target one, so it rounds any positive [m * 2^e] to nearest. *)
Lemma binary_round_spec (sx : bool) (m : positive) (e : Z) :
  let e1 := fexp prec emax (Zpos (digits2_pos m) + e) in
  exists q1 : Z,
    0 <= q1 /\
    (forall c, c <= e -> c <= e1 -> near c q1 e1 (Zpos m) e) /\
    binary_round prec emax sx m e = finish sx q1 e1.
Proof.
  intros e1. unfold binary_round, shl_align. fold e1.
  destruct (e1 - e) as [ | p | p] eqn:Hd.
  - destruct (binary_round_aux_exact sx m e ltac:(fold e1; lia)) as (q1 & Hr & _ & Heq).
    fold e1 in Hr, Heq. exists q1. split; [apply Hr | split; [ | exact Heq]].
    intros c Hc _. apply rounded_near; [lia | lia | exact Hr].
  - destruct (binary_round_aux_exact sx m e ltac:(fold e1; lia)) as (q1 & Hr & _ & Heq).
    fold e1 in Hr, Heq. exists q1. split; [apply Hr | split; [ | exact Heq]].
    intros c Hc _. apply rounded_near; [lia | lia | exact Hr].
  - assert (He1 : fexp prec emax (Zpos (digits2_pos (Pos.iter xO m p)) + e1) = e1).
    { rewrite iter_xO_digits, Pos2Z.inj_add.
      replace (Zpos (digits2_pos m) + Zpos p + e1) with (Zpos (digits2_pos m) + e) by lia.
      reflexivity. }
    destruct (binary_round_aux_exact sx (Pos.iter xO m p) e1 ltac:(rewrite He1; lia))
      as (q1 & Hr & _ & Heq).
    rewrite He1 in Hr, Heq. exists q1.
    destruct Hr as (Hq & Hr1 & Hr2). replace (e1 - e1) with 0 in * by lia.
    change (2 ^ 0) with 1 in *.
    assert (Hq1 : q1 = Zpos m * 2 ^ Zpos p) by (rewrite <- iter_xO_value; lia).
    split; [assumption | split; [ | exact Heq]].
    intros c Hc Hc1. unfold near.
    replace (e - c) with (Zpos p + (e1 - c)) by lia.
    rewrite pow2_add by lia. rewrite Hq1.
    pose proof (pow2_pos (e1 - c) ltac:(lia)). nia.
Qed.

Lemma binary_round_le (m : positive) (e : Z) (Mx : positive) (Ex c : Z) :
  bounded prec emax Mx Ex = true ->
  c <= e -> c <= -1074 ->
  Zpos m * 2 ^ (e - c) <= Zpos Mx * 2 ^ (Ex - c) ->
  SFleb (binary_round prec emax false m e) (S754_finite false Mx Ex) = true.
Proof.
  intros HX Hce Hc Hv.
  destruct (binary_round_spec false m e) as (q1 & Hq & Hnear & ->).
  assert (He1 : -1074 <= fexp prec emax (Zpos (digits2_pos m) + e)) by (rewrite fexp_eq; lia).
  pose proof (canonical_facts _ _ HX) as (HEx & _).
  apply finish_le with (c := c); try assumption; try lia.
  apply Hnear; lia.
Qed.

(** *** Signs *)

Lemma pack_side (sx : bool) (q e : Z) : 0 <= q -> on_side sx (pack sx q e) = true.
Proof.
  intros Hq. unfold pack. destruct q as [ | mq | mq]; try lia.
  - now destruct sx.
  - destruct (e <=? emax - prec); now destruct sx.
Qed.

Lemma finish_side (sx : bool) (q e : Z) : 0 <= q -> on_side sx (finish sx q e) = true.
Proof.
  intros Hq. unfold finish. destruct (q =? 2 ^ 53); apply pack_side; [easy | assumption].
Qed.

Lemma binary_round_side (sx : bool) (m : positive) (e : Z) :
  on_side sx (binary_round prec emax sx m e) = true.
Proof.
  destruct (binary_round_spec sx m e) as (q1 & Hq & _ & ->). now apply finish_side.
Qed.

Lemma shr_exact_nonneg (q e n : Z) :
  0 <= q ->
  let mrs := fst (shr (exact_record q) e n) in
  0 <= shr_m mrs /\ 0 <= round_nearest_even (shr_m mrs) (loc_of_shr_record mrs).
Proof.
  intros Hq. destruct n as [ | p | p]; cbn [shr fst exact_record shr_m]; try (cbn; lia).
  split.
  - rewrite iter_pos_nat. destruct (Pos2Nat.is_succ p) as [k ->].
    now destruct (shifted_iter q k Hq) as (t & HM & _).
  - apply (shr_round q p Hq).
Qed.

(** Whatever the exponent, [binary_round_aux] on a positive mantissa returns
    a number of the sign it was given, never a NaN. *)
Lemma binary_round_aux_side (sx : bool) (m : positive) (e : Z) :
  on_side sx (binary_round_aux prec emax sx (Zpos m) e loc_Exact) = true.
Proof.
  unfold binary_round_aux, shr_fexp. cbn [shr_record_of_loc].
  fold (exact_record (Zpos m)).
  set (n := fexp prec emax (Zdigits2 (Zpos m) + e) - e).
  pose proof (shr_exact_nonneg (Zpos m) e n ltac:(lia)) as [_ Hq1]. cbv zeta in Hq1.
  destruct (shr (exact_record (Zpos m)) e n) as [mrs' e'] eqn:E1. cbn [fst] in Hq1.
  set (q1 := round_nearest_even _ _) in *.
  fold (exact_record q1).
  set (n2 := fexp prec emax (Zdigits2 q1 + e') - e').
  pose proof (shr_exact_nonneg q1 e' n2 Hq1) as [Hq2 _]. cbv zeta in Hq2.
  destruct (shr (exact_record q1) e' n2) as [mrs'' e''] eqn:E2. cbn [fst] in Hq2.
  rewrite pack_of_record. now apply pack_side.
Qed.

(** *** Subtraction, multiplication and addition, by sign and order *)

Lemma SFleb_neg_neg (m1 : positive) (e1 : Z) (m2 : positive) (e2 : Z) :
  SFleb (S754_finite true m1 e1) (S754_finite true m2 e2)
  = SFleb (S754_finite false m2 e2) (S754_finite false m1 e1).
Proof.
  unfold SFleb, SFcompare. fold (Pos.compare m1 m2) (Pos.compare m2 m1).
  rewrite (Z.compare_antisym e1 e2), (Pos.compare_antisym m1 m2).
  destruct (e1 ?= e2); reflexivity.
Qed.

Lemma SFleb_value_signed (sx : bool) (mx : positive) (ex : Z)
      (sy : bool) (my : positive) (ey c : Z) :
  bounded prec emax mx ex = true -> bounded prec emax my ey = true ->
  c <= ex -> c <= ey ->
  SFleb (S754_finite sx mx ex) (S754_finite sy my ey) = true ->
  cond_Zopp sx (Zpos mx * 2 ^ (ex - c)) <= cond_Zopp sy (Zpos my * 2 ^ (ey - c)).
Proof.
  intros Hx Hy Hcx Hcy Hle.
  pose proof (pow2_pos (ex - c) ltac:(lia)).
  pose proof (pow2_pos (ey - c) ltac:(lia)).
  destruct sx, sy; cbn [cond_Zopp].
  - rewrite SFleb_neg_neg in Hle.
    pose proof (SFleb_value _ _ _ _ c Hy Hx Hcy Hcx Hle). lia.
  - nia.
  - discriminate.
  - now apply SFleb_value.
Qed.

Lemma binary_normalize_nonpos (D e : Z) :
  D <= 0 -> nonpos (binary_normalize prec emax D e false) = true.
Proof.
  intros HD. destruct D as [ | p | p]; try lia; cbn [binary_normalize].
  - reflexivity.
  - apply (binary_round_side true).
Qed.

Lemma binary_normalize_nonneg (D e : Z) :
  0 <= D -> nonneg (binary_normalize prec emax D e false) = true.
Proof.
  intros HD. destruct D as [ | p | p]; try lia; cbn [binary_normalize].
  - reflexivity.
  - apply (binary_round_side false).
Qed.

Lemma valid_finite (s : bool) (m : positive) (e : Z) :
  valid_binary (S754_finite s m e) = true -> bounded prec emax m e = true.
Proof. intros H; exact H. Qed.

(** [x <= y] makes [x - y] a NaN (infinities of one sign) or at most zero. *)
Lemma SFsub_le (x y : spec_float) :
  valid_binary x = true -> valid_binary y = true ->
  SFleb x y = true ->
  is_nan_sf (SF64sub x y) || nonpos (SF64sub x y) = true.
Proof.
  intros Hx Hy Hle.
  destruct x as [sx | sx | | sx mx ex], y as [sy | sy | | sy my ey];
    try discriminate;
    try (destruct sx; try discriminate; destruct sy; try discriminate; reflexivity).
  apply valid_finite in Hx, Hy.
  pose proof (canonical_facts _ _ Hx) as (Hex & _).
  pose proof (canonical_facts _ _ Hy) as (Hey & _).
  unfold SF64sub, SFsub. rewrite orb_true_iff. right.
  apply binary_normalize_nonpos.
  rewrite !shl_align_value by lia.
  pose proof (SFleb_value_signed sx mx ex sy my ey (Z.min ex ey) Hx Hy
                ltac:(lia) ltac:(lia) Hle) as Hv.
  destruct sx, sy; cbn [cond_Zopp] in *; lia.
Qed.

(** [y <= x] makes [x - y] a NaN or at least zero. *)
Lemma SFsub_ge (x y : spec_float) :
  valid_binary x = true -> valid_binary y = true ->
  SFleb y x = true ->
  is_nan_sf (SF64sub x y) || nonneg (SF64sub x y) = true.
Proof.
  intros Hx Hy Hle.
  destruct x as [sx | sx | | sx mx ex], y as [sy | sy | | sy my ey];
    try discriminate;
    try (destruct sx; try discriminate; destruct sy; try discriminate; reflexivity).
  apply valid_finite in Hx, Hy.
  pose proof (canonical_facts _ _ Hx) as (Hex & _).
  pose proof (canonical_facts _ _ Hy) as (Hey & _).
  unfold SF64sub, SFsub. rewrite orb_true_iff. right.
  apply binary_normalize_nonneg.
  rewrite !shl_align_value by lia.
  pose proof (SFleb_value_signed sy my ey sx mx ex (Z.min ex ey) Hy Hx
                ltac:(lia) ltac:(lia) Hle) as Hv.
  destruct sx, sy; cbn [cond_Zopp] in *; lia.
Qed.

(** The product of two numbers that are not NaN is a NaN (zero times
    infinity) or lies on the side the two signs give. *)
Lemma SFmul_side (a b : bool) (x y : spec_float) :
  on_side a x = true -> on_side b y = true ->
  is_nan_sf (SF64mul x y) || on_side (xorb a b) (SF64mul x y) = true.
Proof.
  intros Hx Hy.
  destruct x as [sx | sx | | sx mx ex], y as [sy | sy | | sy my ey];
    try (destruct a; discriminate); try (destruct b; discriminate);
    try (destruct a, b, sx, sy; try discriminate; reflexivity).
  assert (sx = a) by (destruct a, sx; try discriminate; reflexivity).
  assert (sy = b) by (destruct b, sy; try discriminate; reflexivity).
  subst sx sy. unfold SF64mul, SFmul. rewrite orb_true_iff. right.
  apply binary_round_aux_side.
Qed.

Lemma SFadd_nonneg (x y : spec_float) :
  nonneg x = true -> nonneg y = true -> nonneg (SF64add x y) = true.
Proof.
  intros Hx Hy.
  destruct x as [sx | sx | | sx mx ex], y as [sy | sy | | sy my ey];
    try discriminate;
    try (destruct sx, sy; try discriminate; reflexivity).
  destruct sx, sy; try discriminate.
  unfold SF64add, SFadd. apply binary_normalize_nonneg. cbn [cond_Zopp]. lia.
Qed.

Lemma SFleb_nonpos_nonneg (x y : spec_float) :
  nonpos x = true -> nonneg y = true -> SFleb x y = true.
Proof.
  intros Hx Hy.
  destruct x as [sx | sx | | sx mx ex], y as [sy | sy | | sy my ey];
    try discriminate; destruct sx, sy; try discriminate; reflexivity.
Qed.

(** Adding a number that is at most zero to [x <= X] stays at most [X], for
    a finite [X >= 0]: the sum is rounded, and the rounding cannot cross the
    representable [X]. *)
Lemma SFadd_le (x y X : spec_float) :
  valid_binary x = true -> valid_binary y = true -> valid_binary X = true ->
  nonneg x = true -> nonpos y = true ->
  nonneg X = true -> X <> S754_infinity false ->
  SFleb x X = true ->
  SFleb (SF64add x y) X = true.
Proof.
  intros Vx Vy VX Hx Hy HX Hfin Hle.
  destruct x as [sx | sx | | sx mx ex]; try discriminate.
  - (* x is a zero *)
    destruct y as [sy | sy | | sy my ey]; try discriminate.
    + apply SFleb_nonpos_nonneg; [ | assumption]. now destruct sx, sy.
    + destruct sy; try discriminate. now apply SFleb_nonpos_nonneg.
    + destruct sy; try discriminate. now apply SFleb_nonpos_nonneg.
  - (* x is infinite: then x <= X makes X infinite *)
    destruct sx; try discriminate.
    destruct X as [sX | sX | | sX mX eX]; try discriminate.
    destruct sX; try discriminate. now elim Hfin.
  - (* x is finite and positive *)
    destruct sx; try discriminate.
    destruct y as [sy | sy | | sy my ey]; try discriminate.
    + exact Hle.
    + destruct sy; try discriminate. now apply SFleb_nonpos_nonneg.
    + destruct sy; try discriminate.
      destruct X as [sX | sX | | sX mX eX]; try discriminate.
      { destruct sX; [discriminate | now elim Hfin]. }
      destruct sX; try discriminate.
      apply valid_finite in Vx, Vy, VX.
      pose proof (canonical_facts _ _ Vx) as (Hex & _).
      pose proof (canonical_facts _ _ Vy) as (Hey & _).
      pose proof (canonical_facts _ _ VX) as (HeX & _).
      pose proof (SFleb_value _ _ _ _ (-1074) Vx VX ltac:(lia) ltac:(lia) Hle) as Hv.
      unfold SF64add, SFadd. cbn [cond_Zopp].
      rewrite !shl_align_value by lia.
      set (ez := Z.min ex ey).
      pose proof (pow2_pos (ex - ez) ltac:(lia)) as Hpx.
      pose proof (pow2_pos (ey - ez) ltac:(lia)) as Hpy.
      destruct (Zpos mx * 2 ^ (ex - ez) + - (Zpos my * 2 ^ (ey - ez))) as [ | D | D] eqn:HD;
        cbn [binary_normalize].
      * reflexivity.
      * apply binary_round_le with (c := -1074); [assumption | lia | lia | ].
        apply Z.le_trans with (2 := Hv).
        replace (ex - -1074) with ((ex - ez) + (ez - -1074)) by lia.
        rewrite pow2_add by lia.
        pose proof (pow2_pos (ez - -1074) ltac:(lia)). nia.
      * apply SFleb_nonpos_nonneg; [apply (binary_round_side true) | reflexivity].
Qed.

(** *** A draw from [[0,1)] times 100 stays below 100 *)

Lemma SFltb_pos_pos (m1 : positive) (e1 : Z) (m2 : positive) (e2 : Z) :
  SFltb (S754_finite false m1 e1) (S754_finite false m2 e2) = true
  <-> e1 < e2 \/ (e1 = e2 /\ Zpos m1 < Zpos m2).
Proof.
  unfold SFltb, SFcompare. fold (Pos.compare m1 m2).
  destruct (Z.compare_spec e1 e2); [ | split; [lia | reflexivity] | split; [discriminate | lia]].
  destruct (Pos.compare_spec m1 m2); split; intros; try reflexivity; try discriminate; lia.
Qed.

Lemma le_64_lt_100 (f : spec_float) :
  nonneg f = true -> SFleb f c64 = true -> SFltb f c100 = true.
Proof.
  intros Hf Hle. destruct f as [s | s | | s m e]; try discriminate; try reflexivity.
  - destruct s; discriminate.
  - destruct s; try discriminate. unfold c64, c100 in *.
    apply SFleb_pos_pos in Hle. apply SFltb_pos_pos. lia.
Qed.

Lemma digits2_pos_eq (m : positive) (d : Z) :
  2 ^ (d - 1) <= Zpos m < 2 ^ d -> 0 < d -> Zpos (digits2_pos m) = d.
Proof.
  intros [Hlo Hhi] Hd. pose proof (digits2_pos_bounds m) as [Hlo' Hhi'].
  destruct (Z.lt_trichotomy (Zpos (digits2_pos m)) d) as [Hlt | [Heq | Hgt]];
    [exfalso | assumption | exfalso].
  - assert (2 ^ Zpos (digits2_pos m) <= 2 ^ (d - 1)) by (apply pow2_le; lia). lia.
  - assert (2 ^ d <= 2 ^ (Zpos (digits2_pos m) - 1)) by (apply pow2_le; lia). lia.
Qed.

Lemma SFmul_100_lt_100 (u : spec_float) :
  valid_binary u = true -> nonneg u = true -> SFltb u c1 = true ->
  SFltb (SF64mul u c100) c100 = true.
Proof.
  intros Vu Hu Hlt.
  destruct u as [s | s | | s mu eu]; try discriminate.
  - reflexivity.
  - destruct s; discriminate.
  - destruct s; try discriminate.
    apply valid_finite in Vu. pose proof (canonical_facts _ _ Vu) as (Heu & Hmu & Hmu' & _).
    unfold c1 in Hlt. apply SFltb_pos_pos in Hlt.
    change (2 ^ 53) with 9007199254740992 in Hmu.
    change (2 ^ 52) with 4503599627370496 in Hmu'.
    assert (Heu53 : eu <= -53) by lia.
    unfold SF64mul, SFmul, c100. cbn [xorb].
    set (P := (mu * 7036874417766400)%positive).
    assert (HP : Zpos P = Zpos mu * 7036874417766400) by (unfold P; lia).
    pose proof (digits2_pos_bounds P) as [HdP HdP'].
    assert (Hd53 : 53 <= Zpos (digits2_pos P)).
    { destruct (Z_le_gt_dec 53 (Zpos (digits2_pos P))) as [ | Hgt]; [assumption | exfalso].
      assert (2 ^ Zpos (digits2_pos P) <= 2 ^ 52) by (apply pow2_le; lia).
      change (2 ^ 52) with 4503599627370496 in *. lia. }
    assert (He1 : fexp prec emax (Zpos (digits2_pos P) + (eu + -46))
                  = Z.max (Zpos (digits2_pos P) + (eu + -46) - 53) (-1074)) by reflexivity.
    destruct (binary_round_aux_exact false P (eu + -46) ltac:(lia)) as (q1 & Hr & _ & ->).
    destruct (Z_lt_ge_dec (Zpos P) (2 ^ 105 * 2 ^ (- 53 - eu))) as [Hsmall | Hbig].
    + (* the product is below 64 *)
      apply le_64_lt_100; [apply (finish_side false); apply Hr | ].
      apply finish_le with (c := eu + -46); try reflexivity; try lia.
      * apply Hr.
      * apply rounded_near; [lia | lia | exact Hr].
      * replace (eu + -46 - (eu + -46)) with 0 by lia.
        replace (-46 - (eu + -46)) with (53 + (-53 - eu)) by lia.
        rewrite pow2_add by lia. change (2 ^ 0) with 1.
        change (2 ^ 105) with (4503599627370496 * 2 ^ 53) in Hsmall.
        pose proof (pow2_pos (-53 - eu) ltac:(lia)). nia.
    + (* the product is in [64, 100): the exponent of [u] is -53 *)
      assert (eu = -53).
      { destruct (Z.eq_dec eu (-53)) as [ | Hne]; [assumption | exfalso].
        assert (2 ^ 1 <= 2 ^ (-53 - eu)) by (apply pow2_le; lia).
        change (2 ^ 1) with 2 in *. change (2 ^ 105) with 40564819207303340847894502572032 in *.
        nia. }
      subst eu. change (2 ^ (-53 - -53)) with 1 in Hbig.
      change (2 ^ 105 * 1) with 40564819207303340847894502572032 in Hbig.
      assert (Hd : Zpos (digits2_pos P) = 106).
      { apply digits2_pos_eq; [ | lia].
        change (2 ^ (106 - 1)) with 40564819207303340847894502572032.
        change (2 ^ 106) with 81129638414606681695789005144064. lia. }
      rewrite Hd in *. rewrite He1 in *.
      change (Z.max (106 + (-53 + -46) - 53) (-1074)) with (-46) in *.
      change (-46 - (-53 + -46)) with 53 in Hr.
      destruct Hr as (Hq0 & Hq1 & _). change (2 ^ 53) with 9007199254740992 in Hq1.
      assert (Hq : q1 < 7036874417766400) by lia.
      unfold finish. change (2 ^ 53) with 9007199254740992.
      replace (q1 =? 9007199254740992) with false by (symmetry; apply Z.eqb_neq; lia).
      unfold pack. destruct q1 as [ | mq | mq]; try lia; [reflexivity | ].
      change (-46 <=? emax - prec) with true. cbv iota.
      apply SFltb_pos_pos. lia.
Qed.

(** *** When no NaN can arise *)

Lemma nonneg_not_nan (f : spec_float) : nonneg f = true -> is_nan_sf f = false.
Proof. now destruct f. Qed.

Lemma nonpos_not_nan (f : spec_float) : nonpos f = true -> is_nan_sf f = false.
Proof. now destruct f. Qed.

Lemma binary_normalize_not_nan (D e : Z) :
  is_nan_sf (binary_normalize prec emax D e false) = false.
Proof.
  destruct (Z_le_gt_dec 0 D).
  - apply nonneg_not_nan. now apply binary_normalize_nonneg.
  - apply nonpos_not_nan. apply binary_normalize_nonpos. lia.
Qed.

(** A finite number minus a number is a number. *)
Lemma SFsub_not_nan (x y : spec_float) :
  match x with S754_zero _ | S754_finite _ _ _ => True | _ => False end ->
  is_nan_sf y = false -> is_nan_sf (SF64sub x y) = false.
Proof.
  intros Hx Hy.
  destruct x as [sx | sx | | sx mx ex]; try contradiction;
    destruct y as [sy | sy | | sy my ey]; try discriminate;
    try reflexivity; try (now destruct sx, sy).
  unfold SF64sub, SFsub. apply binary_normalize_not_nan.
Qed.

(** A finite number other than zero times a number is a number. *)
Lemma SFmul_not_nan (sx : bool) (mx : positive) (ex : Z) (y : spec_float) :
  is_nan_sf y = false -> is_nan_sf (SF64mul (S754_finite sx mx ex) y) = false.
Proof.
  intros Hy. destruct y as [sy | sy | | sy my ey]; try discriminate; try reflexivity.
  unfold SF64mul, SFmul.
  pose proof (binary_round_aux_side (xorb sx sy) (mx * my) (ex + ey)) as Hs.
  unfold on_side in Hs.
  destruct (xorb sx sy); [now apply nonpos_not_nan | now apply nonneg_not_nan].
Qed.

(** *** The same facts on primitive floats *)

Lemma SFcompare_antisym (x y : spec_float) :
  SFcompare y x = option_map CompOpp (SFcompare x y).
Proof.
  destruct x as [sx | sx | | sx mx ex], y as [sy | sy | | sy my ey];
    try reflexivity; try (destruct sx; reflexivity); try (destruct sy; reflexivity);
    try (destruct sx, sy; reflexivity).
  unfold SFcompare. fold (Pos.compare mx my) (Pos.compare my mx).
  rewrite (Z.compare_antisym ex ey), (Pos.compare_antisym mx my).
  destruct sx, sy; try reflexivity; cbn [option_map];
    destruct (ex ?= ey); cbn [CompOpp]; try reflexivity;
    destruct (mx ?= my)%positive; reflexivity.
Qed.

Lemma SFltb_false_SFleb (x y : spec_float) :
  SFltb x y = false -> is_nan_sf x = false -> is_nan_sf y = false -> SFleb y x = true.
Proof.
  unfold SFltb, SFleb. rewrite (SFcompare_antisym x y).
  destruct (SFcompare x y) as [[ | | ] | ] eqn:E; cbn [option_map CompOpp];
    intros; try reflexivity; try discriminate.
  destruct x, y; discriminate.
Qed.

Lemma SFltb_SFleb (x y : spec_float) : SFltb x y = true -> SFleb x y = true.
Proof. unfold SFltb, SFleb. now destruct (SFcompare x y) as [[ | | ] | ]. Qed.

Lemma SFleb_not_nan (x y : spec_float) :
  SFleb x y = true -> is_nan_sf x = false /\ is_nan_sf y = false.
Proof. destruct x, y; try discriminate; now split. Qed.

Local Open Scope float_scope.

Lemma nonneg_spec (x : float) : (0 <=? x) = nonneg (Prim2SF x).
Proof.
  rewrite FloatAxioms.leb_spec. change (Prim2SF 0) with (S754_zero false).
  destruct (Prim2SF x) as [s | s | | s m e]; try reflexivity; now destruct s.
Qed.

Lemma nonpos_spec (x : float) : (x <=? 0) = nonpos (Prim2SF x).
Proof.
  rewrite FloatAxioms.leb_spec. change (Prim2SF 0) with (S754_zero false).
  destruct (Prim2SF x) as [s | s | | s m e]; try reflexivity; now destruct s.
Qed.

Lemma is_nan_spec (x : float) : is_nan x = is_nan_sf (Prim2SF x).
Proof.
  unfold is_nan. rewrite FloatAxioms.eqb_spec. unfold SFeqb.
  destruct (Prim2SF x) as [s | s | | s m e]; try reflexivity; try (now destruct s).
  unfold SFcompare. rewrite Z.compare_refl, Pcompare_refl. now destruct s.
Qed.

Lemma leb_not_nan (x y : float) : (x <=? y) = true -> is_nan x = false /\ is_nan y = false.
Proof. rewrite FloatAxioms.leb_spec, !is_nan_spec. apply SFleb_not_nan. Qed.

Lemma ltb_leb (x y : float) : (x <? y) = true -> (x <=? y) = true.
Proof. rewrite FloatAxioms.ltb_spec, FloatAxioms.leb_spec. apply SFltb_SFleb. Qed.

Lemma ltb_false_leb (x y : float) :
  (x <? y) = false -> is_nan x = false -> is_nan y = false -> (y <=? x) = true.
Proof. rewrite FloatAxioms.ltb_spec, FloatAxioms.leb_spec, !is_nan_spec. apply SFltb_false_SFleb. Qed.

Lemma or_nan_elim (f : spec_float) (b : bool) :
  is_nan_sf f || b = true -> is_nan_sf f = false -> b = true.
Proof. now destruct (is_nan_sf f). Qed.

(** [y <= x] and no NaN: [y - x <= 0]. *)
Lemma sub_nonpos (x y : float) :
  (y <=? x) = true -> is_nan (y - x) = false -> (y - x <=? 0) = true.
Proof.
  rewrite FloatAxioms.leb_spec, is_nan_spec, nonpos_spec, FloatAxioms.sub_spec. intros Hle Hn.
  apply or_nan_elim with (2 := Hn). apply SFsub_le; auto using Prim2SF_valid.
Qed.

(** [x < y] and no NaN: [0 <= y - x]. *)
Lemma sub_nonneg (x y : float) :
  (x <? y) = true -> is_nan (y - x) = false -> (0 <=? y - x) = true.
Proof.
  intros Hlt. apply ltb_leb in Hlt. revert Hlt.
  rewrite FloatAxioms.leb_spec, is_nan_spec, nonneg_spec, FloatAxioms.sub_spec. intros Hle Hn.
  apply or_nan_elim with (2 := Hn). apply SFsub_ge; auto using Prim2SF_valid.
Qed.

Lemma mul_nan_r (k d : float) : is_nan d = true -> is_nan (k * d) = true.
Proof.
  rewrite !is_nan_spec, FloatAxioms.mul_spec. unfold SF64mul.
  destruct (Prim2SF d); try discriminate. now destruct (Prim2SF k).
Qed.

Lemma mul_nonneg_nonpos (k d : float) :
  (0 <=? k) = true -> (d <=? 0) = true -> is_nan (k * d) = false -> (k * d <=? 0) = true.
Proof.
  rewrite !nonneg_spec, !nonpos_spec, is_nan_spec, FloatAxioms.mul_spec. intros Hk Hd Hn.
  apply or_nan_elim with (2 := Hn). apply (SFmul_side false true); assumption.
Qed.

Lemma mul_nonneg_nonneg (k d : float) :
  (0 <=? k) = true -> (0 <=? d) = true -> is_nan (k * d) = false -> (0 <=? k * d) = true.
Proof.
  rewrite !nonneg_spec, is_nan_spec, FloatAxioms.mul_spec. intros Hk Hd Hn.
  apply or_nan_elim with (2 := Hn). apply (SFmul_side false false); assumption.
Qed.

Lemma add_nonneg (x y : float) :
  (0 <=? x) = true -> (0 <=? y) = true -> (0 <=? x + y) = true.
Proof. rewrite !nonneg_spec, FloatAxioms.add_spec. apply SFadd_nonneg. Qed.

(** The bound that keeps the rate from rising: for [0 <= x <= X] with [X]
    finite and [y <= 0], the rounded sum [x + y] is still at most [X]. *)
Lemma add_nonpos_le (x y X : float) :
  (0 <=? x) = true -> (x <=? X) = true -> (X <? infinity) = true ->
  (y <=? 0) = true -> (x + y <=? X) = true.
Proof.
  intros Hx HxX HX Hy.
  assert (H0X : nonneg (Prim2SF X) = true).
  { revert Hx HxX. rewrite nonneg_spec, FloatAxioms.leb_spec.
    destruct (Prim2SF x) as [[ | ] | [ | ] | | [ | ] ? ?],
             (Prim2SF X) as [[ | ] | [ | ] | | [ | ] ? ?]; try discriminate; reflexivity. }
  assert (Hfin : Prim2SF X <> S754_infinity false).
  { revert HX. rewrite FloatAxioms.ltb_spec. change (Prim2SF infinity) with (S754_infinity false).
    intros H E. rewrite E in H. discriminate. }
  revert Hx HxX Hy. rewrite nonneg_spec, nonpos_spec, !FloatAxioms.leb_spec, FloatAxioms.add_spec.
  intros Hx HxX Hy. apply SFadd_le; auto using Prim2SF_valid.
Qed.

(** A draw [u] of [[0,1)], scaled by 100, lies in [[0,100)]: the largest
    draw, [1 - 2^-53], gives the float just below 100. *)
Lemma mul_100_range (u : float) :
  (0 <=? u) = true -> (u <? 1) = true ->
  (0 <=? u * 100) = true /\ (u * 100 <? 100) = true.
Proof.
  intros H0 H1.
  assert (Hlt : (u * 100 <? 100) = true).
  { revert H0 H1. rewrite nonneg_spec, !FloatAxioms.ltb_spec, FloatAxioms.mul_spec.
    change (Prim2SF 100) with c100. change (Prim2SF 1) with c1.
    intros H0 H1. apply SFmul_100_lt_100; auto using Prim2SF_valid. }
  split; [ | exact Hlt].
  apply mul_nonneg_nonneg; [assumption | reflexivity | ].
  apply ltb_leb, leb_not_nan in Hlt. apply Hlt.
Qed.

(** Nothing that is at least zero is below a zero of either sign. *)
Lemma ltb_zero_false (x z : float) :
  (0 <=? x) = true -> (z =? 0) = true -> (x <? z) = false.
Proof.
  rewrite nonneg_spec, FloatAxioms.eqb_spec, FloatAxioms.ltb_spec.
  change (Prim2SF 0) with (S754_zero false).
  destruct (Prim2SF x) as [[ | ] | [ | ] | | [ | ] ? ?],
           (Prim2SF z) as [[ | ] | [ | ] | | [ | ] ? ?]; try discriminate; reflexivity.
Qed.

Lemma leb_refl (x : float) : is_nan x = false -> (x <=? x) = true.
Proof.
  rewrite is_nan_spec, FloatAxioms.leb_spec. unfold SFleb.
  destruct (Prim2SF x) as [sx | sx | | sx m e]; try discriminate; try (now destruct sx).
  intros _. unfold SFcompare. rewrite Z.compare_refl, Pcompare_refl. now destruct sx.
Qed.

Lemma leb_ltb_excl (x y : float) : (x <=? y) = true -> (y <? x) = false.
Proof.
  rewrite FloatAxioms.leb_spec, FloatAxioms.ltb_spec. unfold SFleb, SFltb.
  rewrite (SFcompare_antisym (Prim2SF x) (Prim2SF y)).
  now destruct (SFcompare (Prim2SF x) (Prim2SF y)) as [[ | | ] | ].
Qed.

(** What is at most 100 is not [+infinity]. *)
Lemma le_100_finite (x : float) : (x <=? 100) = true -> (x <? infinity) = true.
Proof.
  rewrite FloatAxioms.leb_spec, FloatAxioms.ltb_spec.
  change (Prim2SF 100) with c100. change (Prim2SF infinity) with (S754_infinity false).
  destruct (Prim2SF x) as [[ | ] | [ | ] | | [ | ] ? ?]; try discriminate; reflexivity.
Qed.

(** With a finite gain [k > 0] and a finite limit, the step is a number
    whenever the average is. *)
Lemma step_is_number (k lim avg : float) :
  (0 <? k) = true -> (k <? infinity) = true ->
  (neg_infinity <? lim) = true -> (lim <? infinity) = true ->
  is_nan avg = false -> is_nan (k * (lim - avg)) = false.
Proof.
  rewrite !FloatAxioms.ltb_spec, !is_nan_spec, FloatAxioms.mul_spec, FloatAxioms.sub_spec.
  change (Prim2SF 0) with (S754_zero false).
  change (Prim2SF infinity) with (S754_infinity false).
  change (Prim2SF neg_infinity) with (S754_infinity true).
  intros Hk0 Hk1 Hl0 Hl1 Ha.
  destruct (Prim2SF k) as [sk | sk | | sk mk ek]; try discriminate;
    try (destruct sk; discriminate).
  apply SFmul_not_nan. apply SFsub_not_nan; [ | assumption].
  destruct (Prim2SF lim) as [sl | sl | | sl ml el]; try discriminate;
    try exact I; destruct sl; discriminate.
Qed.

(** *** Rounding from below, and what a NaN does *)

Local Open Scope Z_scope.

(** The mirror of [finish_le]: a value at least [Mx * 2^Ex] rounds to a
    float that is at least that one, [+infinity] included. *)
Lemma finish_ge (m : positive) (e q1 : Z) (Mx : positive) (Ex c : Z) :
  let e1 := fexp prec emax (Zpos (digits2_pos m) + e) in
  bounded prec emax Mx Ex = true ->
  c <= e -> c <= e1 -> c <= Ex ->
  0 <= q1 -> near c q1 e1 (Zpos m) e ->
  Zpos Mx * 2 ^ (Ex - c) <= Zpos m * 2 ^ (e - c) ->
  SFleb (S754_finite false Mx Ex) (finish false q1 e1) = true.
Proof.
  intros e1 HX Hce Hce1 HcX Hq [Hn1 Hn2] Hv.
  apply canonical_facts in HX. destruct HX as (HEx & HMx & HMx' & _).
  pose proof (digits2_pos_bounds m) as [Hlo Hhi].
  assert (He1 : e1 = Z.max (Zpos (digits2_pos m) + e - 53) (-1074)) by reflexivity.
  pose proof (pow2_pos (e - c) ltac:(lia)) as HP.
  pose proof (pow2_pos (Ex - c) ltac:(lia)) as HPX.
  pose proof (pow2_pos (e1 - c) ltac:(lia)) as HP1.
  assert (HA : Ex <= e1).
  { destruct (Z_le_gt_dec Ex e1) as [ | Hgt]; [assumption | exfalso].
    specialize (HMx' ltac:(lia)).
    assert (H52 : 2 ^ Zpos (digits2_pos m) * 2 ^ (e - c) <= 2 ^ 52 * 2 ^ (Ex - c)).
    { rewrite <- !pow2_add by lia. apply pow2_le. lia. }
    nia. }
  assert (Hq1 : Ex < e1 -> 0 < q1).
  { intros Hlt.
    assert (H53 : 2 ^ 53 * 2 ^ (e1 - c) <= 2 ^ Zpos (digits2_pos m) * 2 ^ (e - c)).
    { rewrite <- !pow2_add by lia. apply pow2_le. lia. }
    assert (Hd : 2 ^ Zpos (digits2_pos m) = 2 * 2 ^ (Zpos (digits2_pos m) - 1)).
    { replace (Zpos (digits2_pos m)) with (1 + (Zpos (digits2_pos m) - 1)) at 1 by lia.
      rewrite pow2_add by lia. reflexivity. }
    change (2 ^ 53) with 9007199254740992 in H53. nia. }
  unfold finish. destruct (Z.eqb_spec q1 (2 ^ 53)) as [Hcarry | Hnc].
  - unfold pack. change (2 ^ 52) with (Zpos 4503599627370496).
    destruct (e1 + 1 <=? emax - prec); [ | reflexivity].
    apply SFleb_pos_pos. left. lia.
  - unfold pack. destruct q1 as [ | mq | mq]; try lia.
    + exfalso. destruct (Z.eq_dec e1 Ex) as [Heq | Hne]; [ | specialize (Hq1 ltac:(lia)); lia].
      replace (e1 - c) with (Ex - c) in * by lia. nia.
    + destruct (e1 <=? emax - prec); [ | reflexivity].
      apply SFleb_pos_pos.
      destruct (Z.eq_dec e1 Ex) as [Heq | Hne]; [right | left; lia].
      split; [lia | ]. replace (e1 - c) with (Ex - c) in * by lia. nia.
Qed.

Lemma binary_round_ge (m : positive) (e : Z) (Mx : positive) (Ex c : Z) :
  bounded prec emax Mx Ex = true ->
  c <= e -> c <= -1074 ->
  Zpos Mx * 2 ^ (Ex - c) <= Zpos m * 2 ^ (e - c) ->
  SFleb (S754_finite false Mx Ex) (binary_round prec emax false m e) = true.
Proof.
  intros HX Hce Hc Hv.
  destruct (binary_round_spec false m e) as (q1 & Hq & Hnear & ->).
  assert (He1 : -1074 <= fexp prec emax (Zpos (digits2_pos m) + e)) by (rewrite fexp_eq; lia).
  pose proof (canonical_facts _ _ HX) as (HEx & _).
  apply finish_ge with (c := c); try assumption; try lia.
  apply Hnear; lia.
Qed.

Lemma SFleb_zero_nonneg (s : bool) (f : spec_float) :
  nonneg f = true -> SFleb (S754_zero s) f = true.
Proof. destruct f as [sf | sf | | sf m e]; try discriminate; now destruct sf. Qed.

(** Adding a number that is at least zero to [x >= 0] gives at least [x]. *)
Lemma SFadd_ge (x y : spec_float) :
  valid_binary x = true -> valid_binary y = true ->
  nonneg x = true -> nonneg y = true ->
  SFleb x (SF64add x y) = true.
Proof.
  intros Vx Vy Hx Hy.
  destruct x as [sx | sx | | sx mx ex]; try discriminate.
  - apply SFleb_zero_nonneg. now apply SFadd_nonneg.
  - destruct sx; try discriminate.
    destruct y as [sy | sy | | sy my ey]; try discriminate; try reflexivity.
    now destruct sy.
  - destruct sx; try discriminate.
    destruct y as [sy | sy | | sy my ey]; try discriminate.
    + cbn. apply SFleb_pos_pos. right. split; lia.
    + now destruct sy.
    + destruct sy; try discriminate.
      apply valid_finite in Vx, Vy.
      pose proof (canonical_facts _ _ Vx) as (Hex & _).
      pose proof (canonical_facts _ _ Vy) as (Hey & _).
      unfold SF64add, SFadd. cbn [cond_Zopp].
      rewrite !shl_align_value by lia.
      set (ez := Z.min ex ey).
      pose proof (pow2_pos (ex - ez) ltac:(lia)) as Hpx.
      pose proof (pow2_pos (ey - ez) ltac:(lia)) as Hpy.
      destruct (Zpos mx * 2 ^ (ex - ez) + Zpos my * 2 ^ (ey - ez)) as [ | D | D] eqn:HD;
        try lia.
      cbn [binary_normalize].
      apply binary_round_ge with (c := -1074); [assumption | lia | lia | ].
      replace (ex - -1074) with ((ex - ez) + (ez - -1074)) by lia.
      rewrite pow2_add by lia.
      pose proof (pow2_pos (ez - -1074) ltac:(lia)). nia.
Qed.

Lemma SFleb_antisym (x y : spec_float) :
  SFleb x y = true -> SFleb y x = true -> SFeqb x y = true.
Proof.
  unfold SFleb, SFeqb. rewrite (SFcompare_antisym x y).
  now destruct (SFcompare x y) as [[ | | ] | ].
Qed.

Lemma SFeqb_c100 (f : spec_float) : SFeqb f c100 = true -> f = c100.
Proof.
  unfold SFeqb, c100.
  destruct f as [s | s | | s m e].
  - destruct s; intros H; discriminate H.
  - destruct s; intros H; discriminate H.
  - intros H; discriminate H.
  - destruct s; [intros H; discriminate H | ]. unfold SFcompare.
    destruct (Z.compare_spec e (-46)) as [He | He | He];
      [ | intros H; discriminate H | intros H; discriminate H].
    destruct (Pos.compare_cont Eq m 7036874417766400) eqn:E;
      [ | intros H; discriminate H | intros H; discriminate H].
    apply Pcompare_Eq_eq in E. intros _. now subst.
Qed.

Local Open Scope float_scope.

Lemma add_nonneg_ge (x y : float) :
  (0 <=? x) = true -> (0 <=? y) = true -> (x <=? x + y) = true.
Proof.
  rewrite !nonneg_spec, FloatAxioms.leb_spec, FloatAxioms.add_spec.
  intros Hx Hy. apply SFadd_ge; auto using Prim2SF_valid.
Qed.

Lemma leb_antisym (x y : float) :
  (x <=? y) = true -> (y <=? x) = true -> (x =? y) = true.
Proof. rewrite !FloatAxioms.leb_spec, FloatAxioms.eqb_spec. apply SFleb_antisym. Qed.

(** Equal to 100 by [==] is being the float 100. *)
Lemma eqb_100_eq (x : float) : (x =? 100) = true -> x = 100.
Proof.
  rewrite FloatAxioms.eqb_spec. change (Prim2SF 100) with c100. intros H.
  apply SFeqb_c100 in H. apply Prim2SF_inj. exact H.
Qed.

Lemma ltb_nan_l (x y : float) : is_nan x = true -> (x <? y) = false.
Proof.
  rewrite is_nan_spec, FloatAxioms.ltb_spec. now destruct (Prim2SF x).
Qed.

Lemma ltb_nan_r (x y : float) : is_nan y = true -> (x <? y) = false.
Proof.
  rewrite is_nan_spec, FloatAxioms.ltb_spec. destruct (Prim2SF y); try discriminate.
  now destruct (Prim2SF x).
Qed.

Lemma leb_nan_l (x y : float) : is_nan x = true -> (x <=? y) = false.
Proof.
  rewrite is_nan_spec, FloatAxioms.leb_spec. now destruct (Prim2SF x).
Qed.

Lemma leb_nan_r (x y : float) : is_nan y = true -> (x <=? y) = false.
Proof.
  rewrite is_nan_spec, FloatAxioms.leb_spec. destruct (Prim2SF y); try discriminate.
  now destruct (Prim2SF x).
Qed.

Lemma add_nan_l (x y : float) : is_nan x = true -> is_nan (x + y) = true.
Proof.
  rewrite !is_nan_spec, FloatAxioms.add_spec. now destruct (Prim2SF x).
Qed.

Lemma add_nan_r (x y : float) : is_nan y = true -> is_nan (x + y) = true.
Proof.
  rewrite !is_nan_spec, FloatAxioms.add_spec. destruct (Prim2SF y); try discriminate.
  now destruct (Prim2SF x).
Qed.

Lemma div_nan_l (x y : float) : is_nan x = true -> is_nan (x / y) = true.
Proof.
  rewrite !is_nan_spec, FloatAxioms.div_spec. now destruct (Prim2SF x).
Qed.

(** A zero plus a number that is at most zero is negative or a zero. *)
Lemma add_zero_nonpos (z y : float) :
  (z =? 0) = true -> (y <=? 0) = true ->
  (z + y <? 0) = true \/ (z + y =? 0) = true.
Proof.
  rewrite !FloatAxioms.eqb_spec, FloatAxioms.leb_spec, FloatAxioms.ltb_spec,
    FloatAxioms.add_spec.
  change (Prim2SF 0) with (S754_zero false).
  destruct (Prim2SF z) as [[ | ] | [ | ] | | [ | ] ? ?],
           (Prim2SF y) as [[ | ] | [ | ] | | [ | ] ? ?]; try discriminate; cbn; auto.
Qed.

(** *** Division and subtraction, by sign *)

Local Open Scope Z_scope.

Lemma shr_1_nonneg (mrs : shr_record) : 0 <= shr_m mrs -> 0 <= shr_m (shr_1 mrs).
Proof.
  destruct mrs as [M r s]. cbn [shr_m]. intros HM.
  rewrite shr_1_spec by assumption. cbn [shr_m]. apply Z.div_pos; lia.
Qed.

Lemma shr_nonneg (mrs : shr_record) (e n : Z) :
  0 <= shr_m mrs -> 0 <= shr_m (fst (shr mrs e n)).
Proof.
  intros HM. destruct n as [ | p | p]; cbn [shr fst]; try assumption.
  rewrite iter_pos_nat. induction (Pos.to_nat p) as [ | k IH]; [assumption | ].
  rewrite Nat.iter_succ. now apply shr_1_nonneg.
Qed.

Lemma round_nearest_even_nonneg (m : Z) (l : location) :
  0 <= m -> 0 <= round_nearest_even m l.
Proof.
  intros Hm. destruct l as [ | [ | | ]]; cbn [round_nearest_even]; try lia.
  destruct (Z.even m); lia.
Qed.

(** [binary_round_aux] on any mantissa that is not negative, with any
    location, returns a number of the sign it was given. *)
Lemma binary_round_aux_side_any (sx : bool) (mz ez : Z) (lz : location) :
  0 <= mz -> on_side sx (binary_round_aux prec emax sx mz ez lz) = true.
Proof.
  intros Hmz. unfold binary_round_aux, shr_fexp.
  set (n := fexp prec emax (Zdigits2 mz + ez) - ez).
  assert (H0 : 0 <= shr_m (shr_record_of_loc mz lz)) by (now destruct lz as [ | [ | | ]]).
  pose proof (shr_nonneg _ ez n H0) as H1.
  destruct (shr (shr_record_of_loc mz lz) ez n) as [mrs' e'] eqn:E1. cbn [fst] in H1.
  pose proof (round_nearest_even_nonneg _ (loc_of_shr_record mrs') H1) as Hq.
  set (q1 := round_nearest_even _ _) in *.
  set (n2 := fexp prec emax (Zdigits2 q1 + e') - e').
  pose proof (shr_nonneg (shr_record_of_loc q1 loc_Exact) e' n2 Hq) as H2.
  destruct (shr (shr_record_of_loc q1 loc_Exact) e' n2) as [mrs'' e''] eqn:E2.
  cbn [fst] in H2. rewrite pack_of_record. now apply pack_side.
Qed.

Lemma SFdiv_core_nonneg (m1 : positive) (e1 : Z) (m2 : positive) (e2 : Z) :
  0 <= fst (fst (SFdiv_core_binary prec emax (Zpos m1) e1 (Zpos m2) e2)).
Proof.
  unfold SFdiv_core_binary.
  set (s := e1 - e2 - _).
  set (m' := match s with Z0 => Zpos m1 | Zpos _ => Z.shiftl (Zpos m1) s | Zneg _ => 0 end).
  assert (Hm' : 0 <= m').
  { unfold m'. destruct s; try lia. apply Z.shiftl_nonneg. lia. }
  pose proof (Z.div_pos m' (Zpos m2) Hm' ltac:(lia)) as Hq.
  unfold Z.div in Hq. destruct (Z.div_eucl m' (Zpos m2)) as [q r]. exact Hq.
Qed.

(** The quotient of a number at least zero by one above zero is a NaN
    (Inf/Inf) or at least zero.  (By a zero the sign of the zero decides.) *)
Lemma SFdiv_nonneg_pos (x y : spec_float) :
  nonneg x = true -> SFltb (S754_zero false) y = true ->
  is_nan_sf (SF64div x y) || nonneg (SF64div x y) = true.
Proof.
  intros Hx Hy.
  destruct x as [sx | sx | | sx mx ex], y as [sy | sy | | sy my ey];
    try discriminate;
    try (destruct sx, sy; try discriminate; reflexivity).
  destruct sx, sy; try discriminate.
  unfold SF64div, SFdiv. rewrite orb_true_iff. right.
  pose proof (SFdiv_core_nonneg mx ex my ey) as Hq.
  destruct (SFdiv_core_binary prec emax (Zpos mx) ex (Zpos my) ey) as [[mz ez] lz].
  cbn [fst] in Hq. now apply (binary_round_aux_side_any false).
Qed.

(** A zero divided by a number at least zero is a NaN (0/0) or a zero. *)
Lemma SFdiv_zero (s : bool) (y : spec_float) :
  nonneg y = true ->
  match SF64div (S754_zero s) y with
  | S754_nan | S754_zero _ => True
  | _ => False
  end.
Proof.
  destruct y as [sy | sy | | sy my ey]; try discriminate; intros _; exact I.
Qed.

(** A number above zero plus a number at least zero is above zero. *)
Lemma SFadd_pos (x y : spec_float) :
  valid_binary x = true -> valid_binary y = true ->
  SFltb (S754_zero false) x = true -> nonneg y = true ->
  SFltb (S754_zero false) (SF64add x y) = true.
Proof.
  intros Vx Vy Hx Hy.
  assert (Hx0 : nonneg x = true)
    by (destruct x as [sx | sx | | sx mx ex]; try discriminate; now destruct sx).
  pose proof (SFadd_ge x y Vx Vy Hx0 Hy) as Hge.
  destruct x as [sx | sx | | sx mx ex]; try discriminate;
    destruct sx; try discriminate;
    destruct (SF64add _ y) as [sr | sr | | sr mr er]; try discriminate;
    destruct sr; try discriminate; reflexivity.
Qed.

Lemma SFsub_as_add (x y : spec_float) : SF64sub x y = SF64add x (SFopp y).
Proof.
  destruct x as [sx | sx | | sx mx ex], y as [sy | sy | | sy my ey];
    try reflexivity; destruct sx, sy; reflexivity.
Qed.

Lemma valid_opp (f : spec_float) : valid_binary (SFopp f) = valid_binary f.
Proof. now destruct f. Qed.

Lemma SFleb_refl (f : spec_float) : is_nan_sf f = false -> SFleb f f = true.
Proof.
  unfold SFleb. destruct f as [s | s | | s m e]; try discriminate; try (now destruct s).
  intros _. unfold SFcompare. rewrite Z.compare_refl, Pcompare_refl. now destruct s.
Qed.

Local Open Scope float_scope.

Lemma div_nonneg_pos (x y : float) :
  (0 <=? x) = true -> (0 <? y) = true -> is_nan (x / y) = false -> (0 <=? x / y) = true.
Proof.
  rewrite !nonneg_spec, FloatAxioms.ltb_spec, is_nan_spec, FloatAxioms.div_spec.
  change (Prim2SF 0) with (S754_zero false). intros Hx Hy Hn.
  apply or_nan_elim with (2 := Hn). now apply SFdiv_nonneg_pos.
Qed.

Lemma add_pos_nonneg (x y : float) :
  (0 <? x) = true -> (0 <=? y) = true -> (0 <? x + y) = true.
Proof.
  rewrite nonneg_spec, !FloatAxioms.ltb_spec, FloatAxioms.add_spec.
  change (Prim2SF 0) with (S754_zero false). intros Hx Hy.
  apply SFadd_pos; auto using Prim2SF_valid.
Qed.

(** What is at least zero is above zero or a zero. *)
Lemma nonneg_cases (x : float) :
  (0 <=? x) = true -> (0 <? x) = true \/ (x =? 0) = true.
Proof.
  rewrite nonneg_spec, FloatAxioms.ltb_spec, FloatAxioms.eqb_spec.
  change (Prim2SF 0) with (S754_zero false).
  destruct (Prim2SF x) as [s | [ | ] | | [ | ] ? ?]; try discriminate; cbn; auto.
Qed.

(** With a zero for [x], [c - (x * 100) / y] is a NaN or [c] itself, for a
    finite [c] other than zero. *)
Lemma sub_zero_quotient (c x y : float) :
  (0 <? c) = true -> (c <? infinity) = true ->
  (x =? 0) = true -> (0 <=? y) = true ->
  is_nan (c - (x * 100) / y) = true \/ c - (x * 100) / y = c.
Proof.
  rewrite nonneg_spec, !FloatAxioms.ltb_spec, FloatAxioms.eqb_spec, is_nan_spec.
  change (Prim2SF 0) with (S754_zero false).
  change (Prim2SF infinity) with (S754_infinity false).
  intros Hc0 Hc1 Hx Hy.
  assert (Hsub : is_nan_sf (Prim2SF (c - (x * 100) / y)) = true
                 \/ Prim2SF (c - (x * 100) / y) = Prim2SF c).
  { rewrite FloatAxioms.sub_spec, FloatAxioms.div_spec, FloatAxioms.mul_spec.
    change (Prim2SF 100) with c100.
    destruct (Prim2SF x) as [sx | sx | | sx mx ex]; try discriminate;
      try (destruct sx; discriminate).
    change (SF64mul (S754_zero sx) c100) with (S754_zero (xorb sx false)).
    pose proof (SFdiv_zero (xorb sx false) (Prim2SF y) Hy) as Hq.
    destruct (SF64div (S754_zero (xorb sx false)) (Prim2SF y)) as [sq | sq | | sq mq eq];
      try contradiction.
    - right. destruct (Prim2SF c) as [sc | sc | | sc mc ec]; try discriminate;
        destruct sc; try discriminate; reflexivity.
    - left. now destruct (Prim2SF c). }
  destruct Hsub as [Hn | He]; [now left | right]. now apply Prim2SF_inj.
Qed.

(** Taking a number that is at least zero away from a finite [x >= 0]
    leaves at most [x]. *)
Lemma sub_nonneg_le (x q : float) :
  (0 <=? x) = true -> (x <? infinity) = true -> (0 <=? q) = true ->
  (x - q <=? x) = true.
Proof.
  intros Hx Hfin Hq.
  assert (Hinf : Prim2SF x <> S754_infinity false).
  { revert Hfin. rewrite FloatAxioms.ltb_spec.
    change (Prim2SF infinity) with (S754_infinity false).
    intros H E. rewrite E in H. discriminate. }
  revert Hx Hq. rewrite !nonneg_spec, FloatAxioms.leb_spec, FloatAxioms.sub_spec.
  intros Hx Hq. rewrite SFsub_as_add.
  apply SFadd_le; auto using Prim2SF_valid.
  - rewrite valid_opp. apply Prim2SF_valid.
  - destruct (Prim2SF q) as [s | [ | ] | | [ | ] ? ?]; try discriminate; reflexivity.
  - apply SFleb_refl. now apply nonneg_not_nan.
Qed.

Lemma sub_nan_r (x y : float) : is_nan y = true -> is_nan (x - y) = true.
Proof.
  rewrite !is_nan_spec, FloatAxioms.sub_spec. destruct (Prim2SF y); try discriminate.
  now destruct (Prim2SF x).
Qed.

End F64Facts.

(** ** Facts about the throttler *)

Import Throttler.
Local Open Scope float_scope.

(** *** The adjustment of one evaluation tick *)

Lemma adjust_frame (t : T) (avg : float) :
  L (adjust t avg) = L t /\ K (adjust t avg) = K t /\
  done (adjust t avg) = done t /\ started (adjust t avg) = started t /\
  rand (adjust t avg) = rand t.
Proof.
  unfold adjust. destruct (L t <=? avg); [now cbn | ].
  destruct (avg <? L t); now cbn.
Qed.

Lemma step_not_nan_sub (t : T) (avg : float) :
  is_nan (step_of t avg) = false -> is_nan (L t - avg) = false.
Proof.
  unfold step_of. intros Hn. destruct (is_nan (L t - avg)) eqn:E; [ | reflexivity].
  apply (F64Facts.mul_nan_r (K t)) in E. congruence.
Qed.

(** With average at or above the limit, the step is at most zero. *)
Lemma step_nonpos (t : T) (avg : float) :
  (0 <=? K t) = true -> (L t <=? avg) = true -> is_nan (step_of t avg) = false ->
  (step_of t avg <=? 0) = true.
Proof.
  intros HK Hle Hn. unfold step_of in *.
  apply F64Facts.mul_nonneg_nonpos; [assumption | | assumption].
  apply F64Facts.sub_nonpos; [assumption | now apply step_not_nan_sub].
Qed.

(** With average below the limit, the step is at least zero. *)
Lemma step_nonneg (t : T) (avg : float) :
  (0 <=? K t) = true -> (avg <? L t) = true -> is_nan (step_of t avg) = false ->
  (0 <=? step_of t avg) = true.
Proof.
  intros HK Hlt Hn. unfold step_of in *.
  apply F64Facts.mul_nonneg_nonneg; [assumption | | assumption].
  apply F64Facts.sub_nonneg; [assumption | now apply step_not_nan_sub].
Qed.

Lemma in_range_iff (x : float) :
  in_range x = true <-> (0 <=? x) = true /\ (x <=? 100) = true.
Proof. unfold in_range. apply andb_true_iff. Qed.

(** The branch taken at or above the limit: the new rate is not above the
    old one, and not below zero. *)
Lemma adjust_over_limit (t : T) (avg : float) :
  (0 <=? K t) = true -> in_range (LoadPointer t) = true ->
  (L t <=? avg) = true -> is_nan (step_of t avg) = false ->
  (LoadPointer (adjust t avg) <=? LoadPointer t) = true /\
  (0 <=? LoadPointer (adjust t avg)) = true.
Proof.
  intros HK Hr Hle Hn. apply in_range_iff in Hr. destruct Hr as [Hr0 Hr100].
  pose proof (step_nonpos t avg HK Hle Hn) as Hstep.
  assert (Hnew : (LoadPointer t + step_of t avg <=? LoadPointer t) = true).
  { apply F64Facts.add_nonpos_le; try assumption.
    - apply F64Facts.leb_refl. now apply F64Facts.leb_not_nan in Hr0.
    - now apply F64Facts.le_100_finite. }
  unfold adjust. rewrite Hle. unfold LoadPointer at 1 3. cbn [StorePointer r].
  destruct (LoadPointer t + step_of t avg <? 0) eqn:Hneg.
  - split; [assumption | reflexivity].
  - split; [assumption | ].
    apply F64Facts.ltb_false_leb; [assumption | | reflexivity].
    now apply F64Facts.leb_not_nan in Hnew.
Qed.

(** One evaluation tick keeps the rate a percentage, as long as its step
    is a NaN only when the limit or the average is one (and then no case of
    the switch runs). *)
Lemma adjust_in_range (t : T) (avg : float) :
  (0 <=? K t) = true -> in_range (LoadPointer t) = true ->
  (is_nan (L t) = false -> is_nan avg = false -> is_nan (step_of t avg) = false) ->
  in_range (LoadPointer (adjust t avg)) = true.
Proof.
  intros HK Hr Hnan.
  destruct (L t <=? avg) eqn:Hle.
  - assert (Hn : is_nan (step_of t avg) = false)
      by (destruct (F64Facts.leb_not_nan _ _ Hle); auto).
    destruct (adjust_over_limit t avg HK Hr Hle Hn) as [Hdown H0].
    apply in_range_iff. split; [assumption | ].
    apply in_range_iff in Hr. destruct Hr as [Hr0 Hr100].
    (* new <= old <= 100, through the bound on the sum *)
    pose proof (step_nonpos t avg HK Hle Hn) as Hstep.
    assert (Hnew : (LoadPointer t + step_of t avg <=? 100) = true)
      by (apply F64Facts.add_nonpos_le; auto).
    unfold adjust. rewrite Hle. unfold LoadPointer at 1. cbn [StorePointer r].
    destruct (LoadPointer t + step_of t avg <? 0); [reflexivity | assumption].
  - unfold adjust. rewrite Hle.
    destruct (avg <? L t) eqn:Hlt; [ | assumption].
    assert (Hn : is_nan (step_of t avg) = false)
      by (destruct (F64Facts.leb_not_nan _ _ (F64Facts.ltb_leb _ _ Hlt)); auto).
    apply in_range_iff in Hr. destruct Hr as [Hr0 Hr100].
    pose proof (step_nonneg t avg HK Hlt Hn) as Hstep.
    assert (Hnew : (0 <=? LoadPointer t + step_of t avg) = true)
      by now apply F64Facts.add_nonneg.
    unfold LoadPointer at 1. cbn [StorePointer r].
    destruct (100 <? LoadPointer t + step_of t avg) eqn:Hbig; [reflexivity | ].
    apply in_range_iff. split; [assumption | ].
    apply F64Facts.ltb_false_leb; [assumption | reflexivity | ].
    now apply F64Facts.leb_not_nan in Hnew.
Qed.

(** *** Runs of the control loop *)

Lemma run_app (s : Sys) (a1 a2 : list action) :
  run s (a1 ++ a2)
  = match run s a1 with
    | Some (s1, o1) =>
        match run s1 a2 with
        | Some (s2, o2) => Some (s2, o1 ++ o2)
        | None => None
        end
    | None => None
    end.
Proof.
  revert s. induction a1 as [ | a a1 IH]; intros s; cbn [run app].
  - destruct (run s a2) as [[s2 o2] | ]; reflexivity.
  - destruct (step s a) as [[s1 o1] | ]; [ | reflexivity].
    rewrite IH. destruct (run s1 a1) as [[s1' o1'] | ]; [ | reflexivity].
    destruct (run s1' a2) as [[s2 o2] | ]; [ | reflexivity].
    now rewrite app_assoc.
Qed.

Lemma run_samples (w : list float) (s : Sys) (l : Loop) :
  loop s = looping l -> istk l = true ->
  run s (map (fun x => fire (tick_istk x None)) w)
  = Some ({| thr := thr s; loop := looping (set_stats l (stats l ++ w));
             senders := senders s |}, []).
Proof.
  revert s l. induction w as [ | x w IH]; intros s l Hl Hk; cbn [map run].
  - rewrite app_nil_r. destruct s as [t g n], l as [st a b lg]. cbn in *. now subst g.
  - cbn [step]. rewrite Hl. cbn [ready]. rewrite Hk. cbn [loop_body].
    set (l1 := {| stats := stats l ++ [x]; itk := itk l; istk := istk l;
                  logged := logged l |}).
    rewrite (IH {| thr := thr s; loop := looping l1; senders := senders s |} l1 eq_refl Hk).
    cbn [thr senders stats itk istk logged set_stats l1 app].
    now rewrite <- app_assoc.
Qed.

Lemma run_window (w : list float) (s : Sys) (l : Loop) :
  loop s = looping l -> itk l = true -> istk l = true -> stats l = [] -> w <> [] ->
  run s (window w)
  = Some ({| thr := adjust (thr s) (average w); loop := looping l;
             senders := senders s |}, []).
Proof.
  intros Hl Hi Hk Hs Hw. unfold window.
  rewrite run_app, (run_samples w s l Hl Hk), Hs. cbn [app run step loop thr senders].
  cbn [ready set_stats itk]. rewrite Hi. cbn [loop_body set_stats stats itk istk logged].
  destruct w as [ | x w]; [contradiction | ].
  destruct l as [st a b lg]. cbn in *. now subst st.
Qed.

Lemma run_windows (ws : list (list float)) (s : Sys) (l : Loop) :
  loop s = looping l -> itk l = true -> istk l = true -> stats l = [] ->
  Forall (fun w => w <> []) ws ->
  run s (windows ws)
  = Some ({| thr := adjust_all (thr s) ws; loop := looping l;
             senders := senders s |}, []).
Proof.
  revert s. induction ws as [ | w ws IH]; intros s Hl Hi Hk Hs Hne.
  - cbn. destruct s as [t g n]. cbn in *. now subst g.
  - inversion Hne as [ | w' ws' Hw Hws]; subst.
    cbn [windows flat_map]. rewrite run_app, (run_window w s l Hl Hi Hk Hs Hw).
    fold (windows ws).
    rewrite (IH {| thr := adjust (thr s) (average w); loop := looping l;
                   senders := senders s |} eq_refl Hi Hk Hs Hws).
    reflexivity.
Qed.

Lemma rate_after_eq (t : T) (ws : list (list float)) :
  started t = false -> Forall (fun w => w <> []) ws ->
  rate_after t ws
  = Some (LoadPointer (adjust_all (StorePointer (set_started t true) 100) ws)).
Proof.
  intros Hst Hne. unfold rate_after. cbn [run step boot thr].
  unfold Start_enter. rewrite Hst. change (senders (boot t)) with 0%nat.
  set (l0 := {| stats := []; itk := true; istk := true; logged := [] |}).
  set (t0 := StorePointer (set_started t true) 100).
  rewrite (run_windows ws {| thr := t0; loop := looping l0; senders := 0 |} l0
             eq_refl eq_refl eq_refl eq_refl Hne).
  reflexivity.
Qed.

Lemma adjust_all_in_range (ws : list (list float)) (t : T) :
  (0 <=? K t) = true -> in_range (LoadPointer t) = true ->
  Forall (fun w => is_nan (L t) = false -> is_nan (average w) = false ->
                   is_nan (K t * (L t - average w)) = false) ws ->
  in_range (LoadPointer (adjust_all t ws)) = true /\
  K (adjust_all t ws) = K t /\ L (adjust_all t ws) = L t.
Proof.
  revert t. induction ws as [ | w ws IH]; intros t HK Hr Hn; [now cbn | ].
  inversion Hn as [ | w' ws' Hw Hws]; subst. cbn [adjust_all fold_left].
  destruct (adjust_frame t (average w)) as (HL' & HK' & _).
  destruct (IH (adjust t (average w))) as (H1 & H2 & H3).
  - now rewrite HK'.
  - now apply adjust_in_range.
  - now rewrite HK', HL'.
  - unfold adjust_all in *. rewrite H2, H3. auto.
Qed.

(** *** The rate stays a percentage *)

(** C1, as stated, fails.  With [K = 0] and two samples whose sum overflows,
    the average is [+Inf], the step [0 * (10 - Inf)] is a NaN, and the branch
    for [avg >= L] stores it: the rate is no longer within [[0,100]]. *)
Lemma rate_leaves_range_on_nan_step :
  (0 <=? 0) = true /\
  Forall (fun w : list float => w <> []) [[0x1p1023; 0x1p1023]] /\
  rate_after (New 10 0 2000000 250000 (fun _ => 0.5)) [[0x1p1023; 0x1p1023]] = Some nan /\
  in_range nan = false.
Proof.
  split; [reflexivity | split; [ | split]].
  - repeat constructor; discriminate.
  - vm_compute; reflexivity.
  - reflexivity.
Qed.

(** C1, amended: for a throttler built with [K >= 0] and started, after any
    sequence of evaluation ticks, each over a non-empty sample buffer, the
    rate is within [[0,100]], provided no step [K * (L - avg)] is a NaN
    unless [L] or [avg] is one (which leaves out [0 * Inf] and [Inf - Inf]). *)
Theorem rate_stays_in_range
        (cpuLimit k : float) (interval intervalStep : Z) (seed : nat -> float)
        (ws : list (list float)) :
  (0 <=? k) = true ->
  Forall (fun w => w <> [] /\
                   (is_nan cpuLimit = false -> is_nan (average w) = false ->
                    is_nan (k * (cpuLimit - average w)) = false)) ws ->
  exists x,
    rate_after (New cpuLimit k interval intervalStep seed) ws = Some x /\
    in_range x = true.
Proof.
  intros Hk Hws.
  assert (Hne : Forall (fun w : list float => w <> []) ws)
    by (eapply Forall_impl; [ | exact Hws]; now intros w [H _]).
  rewrite rate_after_eq by (reflexivity || assumption).
  eexists. split; [reflexivity | ].
  apply adjust_all_in_range; cbn [K L StorePointer set_started New]; try assumption.
  - reflexivity.
  - eapply Forall_impl; [ | exact Hws]. now intros w [_ H].
Qed.

Lemma rate_stays_in_range_witness :
  exists x,
    rate_after (New 10 2 2000000 250000 (fun _ => 0.5))
               [[20; 20; 20; 20; 20; 20; 20; 20]; [20; 20; 20; 20; 20; 20; 20; 20]] = Some x /\
    in_range x = true.
Proof.
  apply (rate_stays_in_range 10 2 2000000 250000 (fun _ => 0.5)).
  - reflexivity.
  - repeat constructor; try discriminate; intros _ _; vm_compute; reflexivity.
Defined.

(** X3.  With a finite gain [K > 0] and a finite limit, the rate stays a
    percentage whatever the samples are, NaN and infinite readings included:
    no step is then a NaN unless the average is one. *)
Lemma rate_stays_in_range_finite_gain
      (cpuLimit k : float) (interval intervalStep : Z) (seed : nat -> float)
      (ws : list (list float)) :
  (0 <? k) = true -> (k <? infinity) = true ->
  (neg_infinity <? cpuLimit) = true -> (cpuLimit <? infinity) = true ->
  Forall (fun w => w <> []) ws ->
  exists x,
    rate_after (New cpuLimit k interval intervalStep seed) ws = Some x /\
    in_range x = true.
Proof.
  intros Hk0 Hk1 Hl0 Hl1 Hne.
  rewrite rate_after_eq by (reflexivity || assumption).
  eexists. split; [reflexivity | ].
  apply adjust_all_in_range; cbn [K L StorePointer set_started New].
  - now apply F64Facts.ltb_leb.
  - reflexivity.
  - apply Forall_forall. intros w _ _ Ha. now apply F64Facts.step_is_number.
Qed.

(** *** Sustained usage at or above the limit *)

(** C8, as stated, fails.  With [L = 50.7] and [K = 2], a window of eight
    samples at 100 brings the rate down to 1.4000000000000057; a window of
    eight samples equal to [L] then sums to 405.59999999999997 and averages
    to 50.699999999999996, which is below [L], so the other branch runs and
    the rate goes up. *)
Lemma over_limit_rate_rises :
  (0 <=? 2) = true /\
  Forall (Forall (fun x => (50.7 <=? x) = true)) [repeat 100 8; repeat 50.7 8] /\
  rate_after (New 50.7 2 2000000 250000 (fun _ => 0.5)) [repeat 100 8]
  = Some 1.4000000000000057 /\
  rate_after (New 50.7 2 2000000 250000 (fun _ => 0.5)) [repeat 100 8; repeat 50.7 8]
  = Some 1.40000000000002 /\
  (1.40000000000002 <=? 1.4000000000000057) = false.
Proof.
  split; [reflexivity | split; [ | split; [ | split]]].
  - repeat constructor.
  - vm_compute; reflexivity.
  - vm_compute; reflexivity.
  - reflexivity.
Qed.

(** C8, amended: if the average that every window computes is at or above
    [L], [K >= 0], and no step is a NaN, then each evaluation tick leaves the
    rate at or below what it was, and never below 0. *)
Theorem over_limit_rate_never_rises
        (cpuLimit k : float) (interval intervalStep : Z) (seed : nat -> float)
        (ws : list (list float)) (w : list float) :
  (0 <=? k) = true ->
  Forall (fun w => w <> [] /\ (cpuLimit <=? average w) = true /\
                   is_nan (k * (cpuLimit - average w)) = false) (ws ++ [w]) ->
  exists x y,
    rate_after (New cpuLimit k interval intervalStep seed) ws = Some x /\
    rate_after (New cpuLimit k interval intervalStep seed) (ws ++ [w]) = Some y /\
    (y <=? x) = true /\ (0 <=? y) = true.
Proof.
  intros Hk Hall.
  assert (Hne : Forall (fun w : list float => w <> []) (ws ++ [w]))
    by (eapply Forall_impl; [ | exact Hall]; now intros v [H _]).
  assert (Hnan : Forall (fun w => is_nan (k * (cpuLimit - average w)) = false) (ws ++ [w]))
    by (eapply Forall_impl; [ | exact Hall]; now intros v (_ & _ & H)).
  apply Forall_app in Hall. destruct Hall as [_ Hw]. inversion Hw as [ | ? ? (_ & Hle & Hn) _]; subst.
  pose proof Hne as Hne'. apply Forall_app in Hne'. destruct Hne' as [Hne1 _].
  apply Forall_app in Hnan. destruct Hnan as [Hnan1 _].
  rewrite !rate_after_eq by (reflexivity || assumption).
  do 2 eexists. split; [reflexivity | split; [reflexivity | ]].
  set (t0 := StorePointer (set_started (New cpuLimit k interval intervalStep seed) true) 100).
  destruct (adjust_all_in_range ws t0) as (Hr & HK & HL); try assumption; try reflexivity.
  { eapply Forall_impl; [ | exact Hnan1]. intros v Hv _ _. exact Hv. }
  unfold adjust_all at 1 3. rewrite fold_left_app. cbn [fold_left]. fold (adjust_all t0 ws).
  apply adjust_over_limit; try assumption.
  - now rewrite HK.
  - now rewrite HL.
  - unfold step_of. now rewrite HK, HL.
Qed.

Lemma over_limit_rate_never_rises_witness :
  exists x y,
    rate_after (New 10 2 2000000 250000 (fun _ => 0.5))
               [[20; 20; 20; 20; 20; 20; 20; 20]] = Some x /\
    rate_after (New 10 2 2000000 250000 (fun _ => 0.5))
               ([[20; 20; 20; 20; 20; 20; 20; 20]] ++ [[20; 20; 20; 20; 20; 20; 20; 20]])
    = Some y /\
    (y <=? x) = true /\ (0 <=? y) = true.
Proof.
  apply (over_limit_rate_never_rises 10 2 2000000 250000 (fun _ => 0.5)).
  - reflexivity.
  - repeat constructor; try discriminate; vm_compute; reflexivity.
Defined.

(** *** The evaluation tick *)

(** C2: on an evaluation tick with a non-empty buffer, with [avg] the sum of
    the samples (taken in order from 0) divided by their number,
    [step = K * (L - avg)] and [newR = r + step]: if [avg >= L] the loop
    stores [newR] raised to 0 when negative, if [avg < L] it stores [newR]
    lowered to 100 when above; either store is a fresh write, whatever the
    old value; and the buffer is empty afterwards. *)
Theorem evaluation_tick_adjusts (t : T) (l : Loop) :
  stats l <> [] ->
  let avg := fold_left (fun sum stat => sum + stat) (stats l) 0
             / float64_of_len (List.length (stats l)) in
  let step := K t * (L t - avg) in
  let newR := LoadPointer t + step in
  exists t',
    loop_body t l tick_itk
    = Continue t' {| stats := []; itk := itk l; istk := istk l; logged := logged l |} /\
    ((L t <=? avg) = true ->
     t' = StorePointer t (if newR <? 0 then 0 else newR) /\
     r_stores t' = S (r_stores t)) /\
    ((avg <? L t) = true ->
     t' = StorePointer t (if 100 <? newR then 100 else newR) /\
     r_stores t' = S (r_stores t)).
Proof.
  intros Hne avg step newR. exists (adjust t avg).
  split; [ | split].
  - cbn [loop_body]. destruct (stats l) as [ | x st] eqn:E; [contradiction | ]. reflexivity.
  - intros Hle. unfold adjust. fold avg. rewrite Hle. now split.
  - intros Hlt. unfold adjust. fold avg. rewrite Hlt.
    destruct (L t <=? avg) eqn:Hle.
    + apply F64Facts.leb_ltb_excl in Hle. congruence.
    + now split.
Qed.

Lemma evaluation_tick_adjusts_witness :
  exists t',
    loop_body (New 10 2 2000000 250000 (fun _ => 0.5))
              {| stats := [20; 20]; itk := true; istk := true; logged := [] |} tick_itk
    = Continue t' {| stats := []; itk := true; istk := true; logged := [] |} /\
    LoadPointer t' = 80.
Proof.
  destruct (evaluation_tick_adjusts
              (New 10 2 2000000 250000 (fun _ => 0.5))
              {| stats := [20; 20]; itk := true; istk := true; logged := [] |}
              ltac:(discriminate)) as (t' & Hbody & Hover & _).
  exists t'. split; [exact Hbody | ].
  destruct (Hover eq_refl) as [-> _]. reflexivity.
Defined.

(** C7: an evaluation tick that finds the buffer empty reports it and
    changes nothing else: the throttler, and so its rate, is as before, and
    the loop goes on. *)
Theorem empty_window_is_skipped (t : T) (l : Loop) :
  stats l = [] ->
  exists l',
    loop_body t l tick_itk = Continue t l' /\
    stats l' = [] /\ itk l' = itk l /\ istk l' = istk l /\
    logged l' = logged l ++ ["could not collect any stats during the interval"%string].
Proof.
  intros He. eexists. cbn [loop_body]. rewrite He.
  split; [reflexivity | ]. cbn. auto.
Qed.

Lemma empty_window_is_skipped_witness :
  exists l',
    loop_body (New 10 2 2000000 250000 (fun _ => 0.5))
              {| stats := []; itk := true; istk := true; logged := [] |} tick_itk
    = Continue (New 10 2 2000000 250000 (fun _ => 0.5)) l' /\
    stats l' = [] /\ itk l' = true /\ istk l' = true /\
    logged l' = [] ++ ["could not collect any stats during the interval"%string].
Proof.
  apply (empty_window_is_skipped
           (New 10 2 2000000 250000 (fun _ => 0.5))
           {| stats := []; itk := true; istk := true; logged := [] |}).
  reflexivity.
Defined.

(** *** Starting twice *)

(** C6: [Start] on a throttler that is running returns [ErrAlreadyStarted],
    which is not [nil], and changes nothing: the rate, the flag, the running
    loop and its buffer are as they were. *)
Theorem Start_while_running (s : Sys) :
  started (thr s) = true ->
  step s call_Start = Some (s, [Start_returned (Some ErrAlreadyStarted)]).
Proof. intros Hst. cbn [step]. unfold Start_enter. now rewrite Hst. Qed.

Lemma Start_while_running_witness :
  step {| thr := StorePointer (set_started (New 10 2 2000000 250000 (fun _ => 0.5)) true) 40;
          loop := looping {| stats := [20; 30]; itk := true; istk := true; logged := [] |};
          senders := 0 |} call_Start
  = Some ({| thr := StorePointer (set_started (New 10 2 2000000 250000 (fun _ => 0.5)) true) 40;
             loop := looping {| stats := [20; 30]; itk := true; istk := true; logged := [] |};
             senders := 0 |},
          [Start_returned (Some ErrAlreadyStarted)]).
Proof. apply Start_while_running. reflexivity. Defined.

(** *** The decision *)

(** C5: [Allow] takes the next draw of the random source, scales it by 100
    to a [u] of [[0,100)], and returns [u < R] for the current rate [R]; it
    is a total function to [bool], and leaves the rate alone. *)
Theorem Allow_compares_draw_with_rate (t : T) :
  unit_draws (rand t) ->
  let u := fst (Float64 (rand t)) * 100 in
  fst (Allow t) = (u <? LoadPointer t) /\
  (0 <=? u) = true /\ (u <? 100) = true /\
  LoadPointer (snd (Allow t)) = LoadPointer t.
Proof.
  intros Hd u. destruct (Hd (cursor (rand t))) as [H0 H1].
  destruct (F64Facts.mul_100_range _ H0 H1) as [Hu0 Hu1].
  repeat split; assumption.
Qed.

Lemma Allow_compares_draw_with_rate_witness :
  fst (Allow (New 10 2 2000000 250000 (fun _ => 0.5))) = (0.5 * 100 <? 100) /\
  (0 <=? 0.5 * 100) = true /\ (0.5 * 100 <? 100) = true /\
  LoadPointer (snd (Allow (New 10 2 2000000 250000 (fun _ => 0.5)))) = 100.
Proof.
  apply (Allow_compares_draw_with_rate (New 10 2 2000000 250000 (fun _ => 0.5))).
  intros n. split; reflexivity.
Defined.

(** C10: at a rate equal to 0, [Allow] returns [false] whatever is drawn. *)
Theorem Allow_at_rate_zero (t : T) :
  unit_draws (rand t) -> (LoadPointer t =? 0) = true -> fst (Allow t) = false.
Proof.
  intros Hd Hz. destruct (Hd (cursor (rand t))) as [H0 H1].
  destruct (F64Facts.mul_100_range _ H0 H1) as [Hu0 _].
  cbn [Allow Float64 fst]. now apply F64Facts.ltb_zero_false.
Qed.

Lemma Allow_at_rate_zero_witness :
  fst (Allow (StorePointer (New 10 2 2000000 250000 (fun _ => 0.999)) 0)) = false.
Proof.
  apply Allow_at_rate_zero.
  - intros n. split; reflexivity.
  - reflexivity.
Defined.

(** *** Right after activation *)

Lemma unit_draws_next (g : Rand) : unit_draws g -> unit_draws (snd (Float64 g)).
Proof. intros H n. apply (H n). Qed.

Lemma run_before_evaluation (acts : list action) (s : Sys) (l : Loop) :
  loop s = looping l -> istk l = true ->
  LoadPointer (thr s) = 100 -> unit_draws (rand (thr s)) ->
  forallb before_evaluation acts = true ->
  exists s' out,
    run s acts = Some (s', out) /\ LoadPointer (thr s') = 100 /\
    forall b, In (Allow_returned b) out -> b = true.
Proof.
  revert s l. induction acts as [ | a acts IH]; intros s l Hl Hk Hr Hd Hq.
  - exists s, []. cbn. repeat split; [assumption | contradiction].
  - cbn [forallb] in Hq. apply andb_true_iff in Hq. destruct Hq as [Ha Hq].
    destruct a as [ | | | [ | | x e]]; try discriminate.
    + (* a call of Allow *)
      destruct (Hd (cursor (rand (thr s)))) as [H0 H1].
      destruct (F64Facts.mul_100_range _ H0 H1) as [_ Hlt].
      destruct (IH {| thr := set_rand (thr s) (snd (Float64 (rand (thr s))));
                      loop := loop s; senders := senders s |} l Hl Hk Hr
                   (unit_draws_next _ Hd) Hq) as (s' & out & Hrun & Hr' & Hout).
      exists s', (Allow_returned true :: out).
      cbn [run step Allow Float64 fst snd] in *. rewrite Hr, Hlt, Hrun.
      repeat split; [assumption | ].
      intros b [Hb | Hb]; [now inversion Hb | now apply Hout].
    + (* a sample tick *)
      cbn [run step]. rewrite Hl. cbn [ready]. rewrite Hk.
      destruct e as [err | ]; cbn [loop_body].
      * set (l1 := {| stats := stats l; itk := itk l; istk := istk l;
                      logged := logged l ++ [("could not collect CPU stats: " ++ err)%string] |}).
        destruct (IH {| thr := thr s; loop := looping l1; senders := senders s |} l1
                     eq_refl Hk Hr Hd Hq) as (s' & out & Hrun & Hr' & Hout).
        exists s', out. rewrite Hrun. now repeat split.
      * set (l1 := {| stats := stats l ++ [x]; itk := itk l; istk := istk l;
                      logged := logged l |}).
        destruct (IH {| thr := thr s; loop := looping l1; senders := senders s |} l1
                     eq_refl Hk Hr Hd Hq) as (s' & out & Hrun & Hr' & Hout).
        exists s', out. rewrite Hrun. now repeat split.
Qed.

(** C4: once [Start] has entered its loop, and until an evaluation tick
    fires, the rate is exactly 100 and every call of [Allow] returns [true]:
    a draw of [[0,1)] times 100 is below 100, the largest one included. *)
Theorem optimistic_start (t : T) (acts : list action) :
  started t = false -> unit_draws (rand t) ->
  forallb before_evaluation acts = true ->
  exists s out,
    run (boot t) (call_Start :: acts) = Some (s, out) /\
    LoadPointer (thr s) = 100 /\
    forall b, In (Allow_returned b) out -> b = true.
Proof.
  intros Hst Hd Hq. cbn [run step boot thr]. unfold Start_enter. rewrite Hst.
  set (l0 := {| stats := []; itk := true; istk := true; logged := [] |}).
  destruct (run_before_evaluation acts
              {| thr := StorePointer (set_started t true) 100; loop := looping l0;
                 senders := 0 |} l0 eq_refl eq_refl eq_refl Hd Hq)
    as (s' & out & Hrun & Hr & Hout).
  exists s', out. change (senders (boot t)) with 0%nat.
  rewrite Hrun. now repeat split.
Qed.

Lemma optimistic_start_witness :
  exists s out,
    run (boot (New 10 2 2000000 250000 (fun _ => 0x1.fffffffffffffp-1)))
        [call_Start; call_Allow; fire (tick_istk 20 None); call_Allow] = Some (s, out) /\
    LoadPointer (thr s) = 100 /\
    forall b, In (Allow_returned b) out -> b = true.
Proof.
  apply (optimistic_start (New 10 2 2000000 250000 (fun _ => 0x1.fffffffffffffp-1))).
  - reflexivity.
  - intros n. split; reflexivity.
  - reflexivity.
Defined.

(** *** Stopping *)

(** The cancellation case itself: when a made channel hands the loop a
    value from [Stop], both tickers are stopped, [Start] returns [nil], the
    deferred function clears the flag, and the sender returns. *)
Lemma cancellation_returns (s : Sys) (l : Loop) :
  loop s = looping l -> done (thr s) = made_chan -> senders s <> 0%nat ->
  step s (fire recv_done)
  = Some ({| thr := set_started (thr s) false;
             loop := returned {| stats := stats l; itk := false; istk := false;
                                 logged := logged l |} None;
             senders := Nat.pred (senders s) |},
          [Stop_returned; Start_returned None]).
Proof.
  intros Hl Hd Hs. cbn [step]. rewrite Hl. cbn [ready]. rewrite Hd.
  destruct (senders s); [contradiction | reflexivity].
Qed.

(** [Start] on a throttler that is not running enters the loop with the
    rate at 100, an empty buffer and both tickers running. *)
Lemma Start_enters (s : Sys) :
  started (thr s) = false ->
  step s call_Start
  = Some ({| thr := StorePointer (set_started (thr s) true) 100;
             loop := looping {| stats := []; itk := true; istk := true; logged := [] |};
             senders := senders s |}, []).
Proof. intros Hst. cbn [step]. unfold Start_enter. now rewrite Hst. Qed.

(** With the nil channel that [New] leaves in [done], the receive of the
    loop is never ready: whatever else happens, the loop keeps running, the
    flag stays set, and the callers of [Stop] stay in their send. *)
Lemma nil_done_keeps_running (acts : list action) (s s' : Sys) (l : Loop) (out : list reply) :
  done (thr s) = nil_chan -> started (thr s) = true -> loop s = looping l ->
  run s acts = Some (s', out) ->
  done (thr s') = nil_chan /\ started (thr s') = true /\
  (exists l', loop s' = looping l') /\ (senders s <= senders s')%nat /\
  ~ In Stop_returned out /\
  forall err, In (Start_returned err) out -> err = Some ErrAlreadyStarted.
Proof.
  revert s l out. induction acts as [ | a acts IH]; intros s l out Hd Hst Hl Hrun.
  - cbn in Hrun. inversion Hrun; subst. repeat split; eauto. intros err [].
  - cbn [run] in Hrun.
    destruct (step s a) as [[s1 o1] | ] eqn:Hstep; [ | discriminate].
    destruct (run s1 acts) as [[s2 o2] | ] eqn:Hrun1; [ | discriminate].
    inversion Hrun; subst s' out; clear Hrun.
    assert (Hinv : done (thr s1) = nil_chan /\ started (thr s1) = true /\
                   (exists l1, loop s1 = looping l1) /\ (senders s <= senders s1)%nat /\
                   ~ In Stop_returned o1 /\
                   forall err, In (Start_returned err) o1 -> err = Some ErrAlreadyStarted).
    { destruct a as [ | | | ev]; cbn [step] in Hstep.
      - unfold Start_enter in Hstep. rewrite Hst in Hstep. inversion Hstep; subst.
        repeat split; eauto.
        + intros [H | []]. discriminate.
        + intros err [H | []]. now inversion H.
      - inversion Hstep; subst. cbn. repeat split; eauto. intros err [].
      - cbn [Allow Float64] in Hstep. inversion Hstep; subst. cbn.
        repeat split; eauto.
        + intros [H | []]. discriminate.
        + intros err [H | []]. discriminate.
      - rewrite Hl in Hstep. destruct ev as [ | | x e]; cbn [ready] in Hstep.
        + rewrite Hd in Hstep. discriminate.
        + destruct (itk l); [ | discriminate]. cbn [loop_body] in Hstep.
          destruct (stats l) as [ | x st]; inversion Hstep; subst; cbn [thr loop senders].
          * repeat split; eauto. intros err [].
          * destruct (adjust_frame (thr s) (average (x :: st))) as (_ & _ & Hd' & Hst' & _).
            rewrite Hd', Hst'. repeat split; eauto. intros err [].
        + destruct (istk l); [ | discriminate].
          destruct e as [err0 | ]; cbn [loop_body] in Hstep; inversion Hstep; subst; cbn;
            repeat split; eauto; intros err []. }
    destruct Hinv as (Hd1 & Hst1 & [l1 Hl1] & Hs1 & Ho1 & Ho1').
    destruct (IH s1 l1 o2 Hd1 Hst1 Hl1 Hrun1) as (Hd2 & Hst2 & Hl2 & Hs2 & Ho2 & Ho2').
    repeat split; try assumption.
    + lia.
    + intros Hin. apply in_app_or in Hin. tauto.
    + intros err Hin. apply in_app_or in Hin. destruct Hin; eauto.
Qed.

(** C3 on the code: after [New], [Start] and [Stop], in whatever follows no
    [Stop] returns, [Start] never returns [nil], the running flag stays set,
    and every further [Start] gets [ErrAlreadyStarted]. *)
Theorem Stop_after_New_never_returns
        (cpuLimit k : float) (interval intervalStep : Z) (seed : nat -> float)
        (acts : list action) (s : Sys) (out : list reply) :
  run (boot (New cpuLimit k interval intervalStep seed)) (call_Start :: call_Stop :: acts)
  = Some (s, out) ->
  started (thr s) = true /\ (exists l, loop s = looping l) /\ (1 <= senders s)%nat /\
  ~ In Stop_returned out /\
  forall err, In (Start_returned err) out -> err = Some ErrAlreadyStarted.
Proof.
  intros Hrun. cbn [run step boot thr loop senders] in Hrun.
  unfold Start_enter in Hrun. cbn [started New StorePointer] in Hrun.
  cbn [thr loop senders] in Hrun.
  match type of Hrun with
  | context [run ?s0 acts] => destruct (run s0 acts) as [[s2 o2] | ] eqn:Hrun2; [ | discriminate];
      destruct (nil_done_keeps_running acts s0 s2 _ o2 eq_refl eq_refl eq_refl Hrun2)
        as (_ & Hst & Hl & Hs & Ho & Ho')
  end.
  cbn [app] in Hrun. inversion Hrun; subst. cbn [senders] in Hs. now repeat split.
Qed.

Lemma Stop_after_New_never_returns_witness :
  exists s out,
    run (boot (New 10 2 2000000 250000 (fun _ => 0.5)))
        [call_Start; call_Stop; fire (tick_istk 20 None); fire tick_itk; call_Start]
    = Some (s, out) /\
    started (thr s) = true /\ (exists l, loop s = looping l) /\ (1 <= senders s)%nat /\
    ~ In Stop_returned out /\
    forall err, In (Start_returned err) out -> err = Some ErrAlreadyStarted.
Proof.
  do 2 eexists. split; [vm_compute; reflexivity | ].
  apply (Stop_after_New_never_returns 10 2 2000000 250000 (fun _ => 0.5)
           [fire (tick_istk 20 None); fire tick_itk; call_Start]).
  vm_compute; reflexivity.
Defined.

(** ** Further facts about the code *)

(** *** Usage below the limit *)

(** The branch taken below the limit: the new rate is not below the old one
    and not above 100. *)
Lemma adjust_under_limit (t : T) (avg : float) :
  (0 <=? K t) = true -> in_range (LoadPointer t) = true ->
  (avg <? L t) = true -> is_nan (step_of t avg) = false ->
  (LoadPointer t <=? LoadPointer (adjust t avg)) = true /\
  (LoadPointer (adjust t avg) <=? 100) = true.
Proof.
  intros HK Hr Hlt Hn. apply in_range_iff in Hr. destruct Hr as [Hr0 Hr100].
  assert (Hle : (L t <=? avg) = false).
  { destruct (L t <=? avg) eqn:E; [ | reflexivity].
    apply F64Facts.leb_ltb_excl in E. congruence. }
  pose proof (step_nonneg t avg HK Hlt Hn) as Hstep.
  pose proof (F64Facts.add_nonneg_ge _ _ Hr0 Hstep) as Hup.
  unfold adjust. rewrite Hle, Hlt. unfold LoadPointer at 2 4. cbn [StorePointer r].
  destruct (100 <? LoadPointer t + step_of t avg) eqn:Hbig.
  - split; [assumption | reflexivity].
  - split; [assumption | ].
    apply F64Facts.ltb_false_leb; [assumption | reflexivity | ].
    now apply F64Facts.leb_not_nan in Hup.
Qed.

(** X1.  When the average a window computes is below [L] (with [K >= 0] and a
    step that is a number), the evaluation tick leaves the rate at or above
    what it was, and at most 100. *)
Theorem under_limit_rate_never_falls
        (cpuLimit k : float) (interval intervalStep : Z) (seed : nat -> float)
        (ws : list (list float)) (w : list float) :
  (0 <=? k) = true ->
  Forall (fun w => w <> [] /\
                   (is_nan cpuLimit = false -> is_nan (average w) = false ->
                    is_nan (k * (cpuLimit - average w)) = false)) ws ->
  w <> [] -> (average w <? cpuLimit) = true ->
  is_nan (k * (cpuLimit - average w)) = false ->
  exists x y,
    rate_after (New cpuLimit k interval intervalStep seed) ws = Some x /\
    rate_after (New cpuLimit k interval intervalStep seed) (ws ++ [w]) = Some y /\
    (x <=? y) = true /\ (y <=? 100) = true.
Proof.
  intros Hk Hws Hw Hlt Hn.
  assert (Hne : Forall (fun w : list float => w <> []) ws)
    by (eapply Forall_impl; [ | exact Hws]; now intros v [H _]).
  assert (Hne' : Forall (fun w : list float => w <> []) (ws ++ [w]))
    by (apply Forall_app; split; [assumption | now constructor]).
  rewrite !rate_after_eq by (reflexivity || assumption).
  do 2 eexists. split; [reflexivity | split; [reflexivity | ]].
  set (t0 := StorePointer (set_started (New cpuLimit k interval intervalStep seed) true) 100).
  destruct (adjust_all_in_range ws t0) as (Hr & HK & HL); try assumption; try reflexivity.
  { eapply Forall_impl; [ | exact Hws]. now intros v [_ Hv]. }
  unfold adjust_all at 2 3. rewrite fold_left_app. cbn [fold_left]. fold (adjust_all t0 ws).
  apply adjust_under_limit; try assumption.
  - now rewrite HK.
  - now rewrite HL.
  - unfold step_of. now rewrite HK, HL.
Qed.

Lemma under_limit_rate_never_falls_witness :
  exists x y,
    rate_after (New 10 2 2000000 250000 (fun _ => 0.5)) [[20; 20; 20]] = Some x /\
    rate_after (New 10 2 2000000 250000 (fun _ => 0.5)) ([[20; 20; 20]] ++ [[4; 5]])
    = Some y /\
    (x <=? y) = true /\ (y <=? 100) = true.
Proof.
  apply (under_limit_rate_never_falls 10 2 2000000 250000 (fun _ => 0.5)).
  - reflexivity.
  - repeat constructor; try discriminate; intros _ _; vm_compute; reflexivity.
  - discriminate.
  - vm_compute; reflexivity.
  - vm_compute; reflexivity.
Defined.

Lemma adjust_at_ceiling (t : T) (avg : float) :
  (0 <=? K t) = true -> LoadPointer t = 100 ->
  (avg <? L t) = true -> is_nan (step_of t avg) = false ->
  LoadPointer (adjust t avg) = 100.
Proof.
  intros HK Hr Hlt Hn.
  destruct (adjust_under_limit t avg HK) as [Hup Hdown]; try assumption.
  { now rewrite Hr. }
  rewrite Hr in Hup. apply F64Facts.eqb_100_eq. now apply F64Facts.leb_antisym.
Qed.

Lemma adjust_all_at_ceiling (ws : list (list float)) (t : T) :
  (0 <=? K t) = true -> LoadPointer t = 100 ->
  Forall (fun w => (average w <? L t) = true /\
                   is_nan (K t * (L t - average w)) = false) ws ->
  LoadPointer (adjust_all t ws) = 100.
Proof.
  revert t. induction ws as [ | w ws IH]; intros t HK Hr Hall; [assumption | ].
  inversion Hall as [ | w' ws' [Hlt Hn] Hws]; subst. cbn [adjust_all fold_left].
  destruct (adjust_frame t (average w)) as (HL' & HK' & _).
  apply IH.
  - now rewrite HK'.
  - now apply adjust_at_ceiling.
  - now rewrite HK', HL'.
Qed.

(** X2.  A throttler that only ever sees averages below [L] keeps the rate at
    exactly 100: every sum [100 + step] is cut back to 100 or rounds to it. *)
Theorem under_limit_keeps_full_rate
        (cpuLimit k : float) (interval intervalStep : Z) (seed : nat -> float)
        (ws : list (list float)) :
  (0 <=? k) = true ->
  Forall (fun w => w <> [] /\ (average w <? cpuLimit) = true /\
                   is_nan (k * (cpuLimit - average w)) = false) ws ->
  rate_after (New cpuLimit k interval intervalStep seed) ws = Some 100.
Proof.
  intros Hk Hws.
  assert (Hne : Forall (fun w : list float => w <> []) ws)
    by (eapply Forall_impl; [ | exact Hws]; now intros v [H _]).
  rewrite rate_after_eq by (reflexivity || assumption). f_equal.
  apply adjust_all_at_ceiling; cbn [K L StorePointer set_started New]; try assumption.
  - reflexivity.
  - eapply Forall_impl; [ | exact Hws]. now intros v (_ & H1 & H2).
Qed.

Lemma under_limit_keeps_full_rate_witness :
  rate_after (New 10 2 2000000 250000 (fun _ => 0.5))
             [[0; 0; 0; 0; 0; 0; 0; 0]; [9.5; 3]; [0; 0]] = Some 100.
Proof.
  apply (under_limit_keeps_full_rate 10 2 2000000 250000 (fun _ => 0.5)).
  - reflexivity.
  - repeat constructor; try discriminate; vm_compute; reflexivity.
Defined.

(** The witness of [rate_stays_in_range_finite_gain]: readings that are NaN
    or infinite among them. *)
Lemma rate_stays_in_range_finite_gain_witness :
  exists x,
    rate_after (New 10 2 2000000 250000 (fun _ => 0.5))
               [[20; nan; 20]; [infinity]; [neg_infinity; 5]; [0x1p1023; 0x1p1023]]
    = Some x /\
    in_range x = true.
Proof.
  apply (rate_stays_in_range_finite_gain 10 2 2000000 250000 (fun _ => 0.5));
    try reflexivity.
  repeat constructor; discriminate.
Defined.

(** *** The floor, and what a NaN does to the loop *)

Lemma adjust_all_frame (ws : list (list float)) (t : T) :
  L (adjust_all t ws) = L t /\ K (adjust_all t ws) = K t /\
  rand (adjust_all t ws) = rand t.
Proof.
  revert t. induction ws as [ | w ws IH]; intros t; [now cbn | ].
  cbn [adjust_all fold_left].
  destruct (adjust_frame t (average w)) as (HL & HK & _ & _ & Hg).
  destruct (IH (adjust t (average w))) as (H1 & H2 & H3).
  unfold adjust_all in *. rewrite H1, H2, H3. auto.
Qed.

Lemma adjust_at_floor (t : T) (avg : float) :
  (0 <=? K t) = true -> (LoadPointer t =? 0) = true ->
  (L t <=? avg) = true -> is_nan (step_of t avg) = false ->
  (LoadPointer (adjust t avg) =? 0) = true.
Proof.
  intros HK Hz Hle Hn.
  pose proof (step_nonpos t avg HK Hle Hn) as Hstep.
  unfold adjust. rewrite Hle. unfold LoadPointer at 1. cbn [StorePointer r].
  destruct (F64Facts.add_zero_nonpos _ _ Hz Hstep) as [Hneg | Hzero].
  - rewrite Hneg. reflexivity.
  - destruct (LoadPointer t + step_of t avg <? 0); [reflexivity | assumption].
Qed.

Lemma adjust_all_at_floor (ws : list (list float)) (t : T) :
  (0 <=? K t) = true -> (LoadPointer t =? 0) = true ->
  Forall (fun w => (L t <=? average w) = true /\
                   is_nan (K t * (L t - average w)) = false) ws ->
  (LoadPointer (adjust_all t ws) =? 0) = true.
Proof.
  revert t. induction ws as [ | w ws IH]; intros t HK Hz Hall; [assumption | ].
  inversion Hall as [ | w' ws' [Hle Hn] Hws]; subst. cbn [adjust_all fold_left].
  destruct (adjust_frame t (average w)) as (HL' & HK' & _).
  apply IH.
  - now rewrite HK'.
  - now apply adjust_at_floor.
  - now rewrite HK', HL'.
Qed.

(** X4.  Once the rate is 0, it stays 0 through every window whose average is at
    or above [L], and a call of [Allow] after them is refused. *)
Theorem floor_rejects_everything (s : Sys) (l : Loop) (ws : list (list float)) :
  loop s = looping l -> itk l = true -> istk l = true -> stats l = [] ->
  (0 <=? K (thr s)) = true -> (LoadPointer (thr s) =? 0) = true ->
  unit_draws (rand (thr s)) ->
  Forall (fun w => w <> [] /\ (L (thr s) <=? average w) = true /\
                   is_nan (K (thr s) * (L (thr s) - average w)) = false) ws ->
  exists s',
    run s (windows ws ++ [call_Allow]) = Some (s', [Allow_returned false]) /\
    (LoadPointer (thr s') =? 0) = true.
Proof.
  intros Hl Hi Hk Hs HK Hz Hd Hws.
  assert (Hne : Forall (fun w : list float => w <> []) ws)
    by (eapply Forall_impl; [ | exact Hws]; now intros v [H _]).
  assert (Hz' : (LoadPointer (adjust_all (thr s) ws) =? 0) = true).
  { apply adjust_all_at_floor; try assumption.
    eapply Forall_impl; [ | exact Hws]. now intros v (_ & H1 & H2). }
  destruct (adjust_all_frame ws (thr s)) as (_ & _ & Hg).
  destruct (Hd (cursor (rand (thr s)))) as [H0 H1].
  destruct (F64Facts.mul_100_range _ H0 H1) as [Hu0 _].
  pose proof (F64Facts.ltb_zero_false _ _ Hu0 Hz') as Hno.
  rewrite run_app, (run_windows ws s l Hl Hi Hk Hs Hne).
  cbn [run step thr loop senders Allow Float64]. rewrite Hg, Hno.
  eexists. split; [reflexivity | exact Hz'].
Qed.

Lemma floor_rejects_everything_witness :
  exists s',
    run {| thr := StorePointer (set_started (New 10 2 2000000 250000 (fun _ => 0.25)) true) 0;
           loop := looping {| stats := []; itk := true; istk := true; logged := [] |};
           senders := 0 |}
        (windows [[20; 30]; [10]] ++ [call_Allow])
    = Some (s', [Allow_returned false]) /\
    (LoadPointer (thr s') =? 0) = true.
Proof.
  apply (floor_rejects_everything _ {| stats := []; itk := true; istk := true; logged := [] |});
    try reflexivity.
  - intros n. split; reflexivity.
  - repeat constructor; try discriminate; vm_compute; reflexivity.
Defined.

Lemma adjust_nan (t : T) (avg : float) :
  is_nan (LoadPointer t) = true -> is_nan (LoadPointer (adjust t avg)) = true.
Proof.
  intros Hn. pose proof (F64Facts.add_nan_l _ (step_of t avg) Hn) as Hsum.
  unfold adjust. destruct (L t <=? avg).
  - unfold LoadPointer at 1. cbn [StorePointer r].
    now rewrite (F64Facts.ltb_nan_l _ 0 Hsum).
  - destruct (avg <? L t); [ | assumption].
    unfold LoadPointer at 1. cbn [StorePointer r].
    now rewrite (F64Facts.ltb_nan_r 100 _ Hsum).
Qed.

Lemma adjust_all_nan (ws : list (list float)) (t : T) :
  is_nan (LoadPointer t) = true -> is_nan (LoadPointer (adjust_all t ws)) = true.
Proof.
  revert t. induction ws as [ | w ws IH]; intros t Hn; [assumption | ].
  cbn [adjust_all fold_left]. apply IH. now apply adjust_nan.
Qed.

(** X5.  A rate that has become a NaN stays one through every later window,
    whatever the samples, and [Allow] then refuses every request. *)
Theorem nan_rate_is_permanent (s : Sys) (l : Loop) (ws : list (list float)) :
  loop s = looping l -> itk l = true -> istk l = true -> stats l = [] ->
  is_nan (LoadPointer (thr s)) = true ->
  Forall (fun w => w <> []) ws ->
  exists s',
    run s (windows ws ++ [call_Allow]) = Some (s', [Allow_returned false]) /\
    is_nan (LoadPointer (thr s')) = true.
Proof.
  intros Hl Hi Hk Hs Hn Hne.
  pose proof (adjust_all_nan ws (thr s) Hn) as Hn'.
  rewrite run_app, (run_windows ws s l Hl Hi Hk Hs Hne).
  cbn [run step thr loop senders Allow Float64].
  rewrite (F64Facts.ltb_nan_r _ _ Hn').
  eexists. split; [reflexivity | exact Hn'].
Qed.

Lemma nan_rate_is_permanent_witness :
  exists s',
    run {| thr := StorePointer (set_started (New 10 2 2000000 250000 (fun _ => 0.25)) true) nan;
           loop := looping {| stats := []; itk := true; istk := true; logged := [] |};
           senders := 0 |}
        (windows [[0; 0]; [50]] ++ [call_Allow])
    = Some (s', [Allow_returned false]) /\
    is_nan (LoadPointer (thr s')) = true.
Proof.
  apply (nan_rate_is_permanent _ {| stats := []; itk := true; istk := true; logged := [] |});
    try reflexivity.
  repeat constructor; discriminate.
Defined.

Lemma adjust_nan_limit (t : T) (avg : float) : is_nan (L t) = true -> adjust t avg = t.
Proof.
  intros Hn. unfold adjust.
  now rewrite (F64Facts.leb_nan_l _ avg Hn), (F64Facts.ltb_nan_r avg _ Hn).
Qed.

(** X6.  A throttler built with a NaN for the limit never adjusts: no case of
    the switch holds, and the rate stays at the 100 of [Start]. *)
Theorem nan_limit_never_adjusts
        (cpuLimit k : float) (interval intervalStep : Z) (seed : nat -> float)
        (ws : list (list float)) :
  is_nan cpuLimit = true ->
  Forall (fun w => w <> []) ws ->
  rate_after (New cpuLimit k interval intervalStep seed) ws = Some 100.
Proof.
  intros Hn Hne. rewrite rate_after_eq by (reflexivity || assumption). f_equal.
  set (t0 := StorePointer (set_started (New cpuLimit k interval intervalStep seed) true) 100).
  assert (Hfix : adjust_all t0 ws = t0).
  { clear Hne. induction ws as [ | w ws IH]; [reflexivity | ].
    cbn [adjust_all fold_left]. rewrite adjust_nan_limit by exact Hn. exact IH. }
  now rewrite Hfix.
Qed.

Lemma nan_limit_never_adjusts_witness :
  rate_after (New nan 2 2000000 250000 (fun _ => 0.5)) [[100; 100]; [100]] = Some 100.
Proof.
  apply nan_limit_never_adjusts; [reflexivity | repeat constructor; discriminate].
Defined.

Lemma sum_nan_acc (l : list float) (acc : float) :
  is_nan acc = true -> is_nan (fold_left (fun sum stat => sum + stat) l acc) = true.
Proof.
  revert acc. induction l as [ | x l IH]; intros acc Hn; [assumption | ].
  cbn [fold_left]. apply IH. now apply F64Facts.add_nan_l.
Qed.

Lemma sum_nan_in (l : list float) (acc x : float) :
  In x l -> is_nan x = true ->
  is_nan (fold_left (fun sum stat => sum + stat) l acc) = true.
Proof.
  revert acc. induction l as [ | y l IH]; intros acc Hin Hn; [contradiction | ].
  cbn [fold_left]. destruct Hin as [-> | Hin].
  - apply sum_nan_acc. now apply F64Facts.add_nan_r.
  - now apply IH.
Qed.

(** X7.  One NaN reading voids its window: the sum, and so the average, is a
    NaN, no case of the switch holds, nothing is stored, and the buffer is
    cleared all the same. *)
Theorem nan_reading_voids_window (t : T) (l : Loop) (x : float) :
  In x (stats l) -> is_nan x = true ->
  loop_body t l tick_itk
  = Continue t {| stats := []; itk := itk l; istk := istk l; logged := logged l |}.
Proof.
  intros Hin Hn.
  assert (Havg : is_nan (average (stats l)) = true).
  { unfold average, sum_stats. apply F64Facts.div_nan_l. now apply sum_nan_in with x. }
  cbn [loop_body]. destruct (stats l) as [ | y st] eqn:E; [contradiction | ].
  unfold adjust.
  now rewrite (F64Facts.leb_nan_r (L t) _ Havg), (F64Facts.ltb_nan_l _ (L t) Havg).
Qed.

Lemma nan_reading_voids_window_witness :
  loop_body (StorePointer (New 10 2 2000000 250000 (fun _ => 0.5)) 60)
            {| stats := [95; nan; 90]; itk := true; istk := true; logged := [] |} tick_itk
  = Continue (StorePointer (New 10 2 2000000 250000 (fun _ => 0.5)) 60)
             {| stats := []; itk := true; istk := true; logged := [] |}.
Proof.
  apply (nan_reading_voids_window _ {| stats := [95; nan; 90]; itk := true; istk := true;
                                       logged := [] |} nan).
  - right; left; reflexivity.
  - reflexivity.
Defined.

(** *** Samples *)

(** X8.  Over any run of sample ticks the buffer grows by exactly the readings
    that came without an error, in order; each failed reading leaves one
    line in the log and nothing else; the throttler is not touched. *)
Theorem failed_samples_are_skipped
        (rs : list (float * option error)) (s : Sys) (l : Loop) :
  loop s = looping l -> istk l = true ->
  run s (sample_ticks rs)
  = Some ({| thr := thr s;
             loop := looping {| stats := stats l ++ readings rs; itk := itk l;
                                istk := istk l;
                                logged := logged l ++ failures_logged rs |};
             senders := senders s |}, []).
Proof.
  revert s l. induction rs as [ | [x e] rs IH]; intros s l Hl Hk.
  - cbn. rewrite !app_nil_r. destruct s as [t g n], l as [st a b lg]. cbn in *. now subst g.
  - cbn [sample_ticks map run step fst snd]. rewrite Hl. cbn [ready]. rewrite Hk.
    destruct e as [err | ]; cbn [loop_body].
    + set (l1 := {| stats := stats l; itk := itk l; istk := istk l;
                    logged := logged l ++ [("could not collect CPU stats: " ++ err)%string] |}).
      fold (sample_ticks rs).
      rewrite (IH {| thr := thr s; loop := looping l1; senders := senders s |} l1 eq_refl Hk).
      unfold readings, failures_logged.
      cbn [thr senders stats itk istk logged l1 app flat_map fst snd].
      rewrite ?Hk, <- ?app_assoc. reflexivity.
    + set (l1 := {| stats := stats l ++ [x]; itk := itk l; istk := istk l;
                    logged := logged l |}).
      fold (sample_ticks rs).
      rewrite (IH {| thr := thr s; loop := looping l1; senders := senders s |} l1 eq_refl Hk).
      unfold readings, failures_logged.
      cbn [thr senders stats itk istk logged l1 app flat_map fst snd].
      rewrite ?Hk, <- ?app_assoc. reflexivity.
Qed.

Lemma failed_samples_are_skipped_witness :
  run {| thr := StorePointer (set_started (New 10 2 2000000 250000 (fun _ => 0.5)) true) 100;
         loop := looping {| stats := [7]; itk := true; istk := true; logged := [] |};
         senders := 0 |}
      (sample_ticks [(20, None); (0, Some "no /proc/stat"%string); (30, None)])
  = Some ({| thr := StorePointer (set_started (New 10 2 2000000 250000 (fun _ => 0.5)) true) 100;
             loop := looping {| stats := [7] ++ [20; 30]; itk := true; istk := true;
                                logged := [] ++ ["could not collect CPU stats: no /proc/stat"%string] |};
             senders := 0 |}, []).
Proof.
  exact (failed_samples_are_skipped
           [(20, None); (0, Some "no /proc/stat"%string); (30, None)]
           {| thr := StorePointer (set_started (New 10 2 2000000 250000 (fun _ => 0.5)) true) 100;
              loop := looping {| stats := [7]; itk := true; istk := true; logged := [] |};
              senders := 0 |}
           {| stats := [7]; itk := true; istk := true; logged := [] |}
           eq_refl eq_refl).
Defined.

(** X9.  When [cpu.Times] reports no error but not exactly one entry,
    [getCpuUsage] returns 0 with a [nil] error, and the loop takes it for a
    reading: a usage of 0 enters the buffer. *)
Theorem odd_stat_count_reads_as_zero
        (t : T) (l : Loop) (cpuStats : list TimesStat) :
  List.length cpuStats <> 1%nat ->
  getCpuUsage cpuStats None = (0, None) /\
  loop_body t l (sample_tick cpuStats None)
  = Continue t {| stats := stats l ++ [0]; itk := itk l; istk := istk l;
                  logged := logged l |}.
Proof.
  intros Hlen.
  assert (H : getCpuUsage cpuStats None = (0, None)).
  { destruct cpuStats as [ | st [ | st' rest]]; try reflexivity. now elim Hlen. }
  split; [exact H | ]. unfold sample_tick. rewrite H. reflexivity.
Qed.

Lemma odd_stat_count_reads_as_zero_witness :
  getCpuUsage [] None = (0, None) /\
  loop_body (New 10 2 2000000 250000 (fun _ => 0.5))
            {| stats := [90; 95]; itk := true; istk := true; logged := [] |}
            (sample_tick [] None)
  = Continue (New 10 2 2000000 250000 (fun _ => 0.5))
             {| stats := [90; 95] ++ [0]; itk := true; istk := true; logged := [] |}.
Proof.
  apply (odd_stat_count_reads_as_zero
           _ {| stats := [90; 95]; itk := true; istk := true; logged := [] |} []).
  discriminate.
Defined.

(** X10.  With CPU times that are all at least zero, the usage [getCpuUsage]
    computes is never above 100: it is at most 100, or a NaN (all times
    zero, or an infinite one). *)
Theorem getCpuUsage_at_most_100 (st : TimesStat) :
  (0 <=? User st) = true -> (0 <=? System st) = true -> (0 <=? Idle st) = true ->
  (0 <=? Nice st) = true -> (0 <=? Iowait st) = true -> (0 <=? Irq st) = true ->
  (0 <=? Softirq st) = true -> (0 <=? Steal st) = true -> (0 <=? Guest st) = true ->
  (0 <=? GuestNice st) = true ->
  snd (getCpuUsage [st] None) = None /\
  (is_nan (fst (getCpuUsage [st] None)) = true \/
   (fst (getCpuUsage [st] None) <=? 100) = true).
Proof.
  intros HUser HSystem HIdle HNice HIowait HIrq HSoftirq HSteal HGuest HGuestNice.
  cbn [getCpuUsage fst snd]. split; [reflexivity | ].
  set (total := Idle st + Guest st + GuestNice st + Iowait st + Irq st + Nice st
                + Softirq st + Steal st + System st + User st).
  destruct (F64Facts.nonneg_cases _ HIdle) as [Hpos | Hzero].
  - assert (Htot : (0 <? total) = true)
      by (unfold total; repeat (apply F64Facts.add_pos_nonneg; [ | assumption]); assumption).
    destruct (is_nan (Idle st * 100 / total)) eqn:Hq.
    + left. now apply F64Facts.sub_nan_r.
    + right. apply F64Facts.sub_nonneg_le; try reflexivity.
      apply F64Facts.div_nonneg_pos; try assumption.
      apply F64Facts.mul_nonneg_nonneg; [assumption | reflexivity | ].
      destruct (is_nan (Idle st * 100)) eqn:Hm; [ | reflexivity].
      apply (F64Facts.div_nan_l _ total) in Hm. congruence.
  - assert (Htot : (0 <=? total) = true)
      by (unfold total; repeat (apply F64Facts.add_nonneg; [ | assumption]); assumption).
    destruct (F64Facts.sub_zero_quotient 100 (Idle st) total) as [Hn | He];
      try reflexivity; try assumption.
    + now left.
    + right. rewrite He. reflexivity.
Qed.

Lemma getCpuUsage_at_most_100_witness :
  snd (getCpuUsage [mkTimesStat 12.5 3 80 0 1.5 0 0.25 0 0 0] None) = None /\
  (is_nan (fst (getCpuUsage [mkTimesStat 12.5 3 80 0 1.5 0 0.25 0 0 0] None)) = true \/
   (fst (getCpuUsage [mkTimesStat 12.5 3 80 0 1.5 0 0.25 0 0 0] None) <=? 100) = true).
Proof.
  apply (getCpuUsage_at_most_100 (mkTimesStat 12.5 3 80 0 1.5 0 0.25 0 0 0));
    reflexivity.
Defined.

(** *** What no run changes *)

Lemma adjust_config (t : T) (avg : float) :
  R (adjust t avg) = R t /\ interval (adjust t avg) = interval t /\
  intervalStep (adjust t avg) = intervalStep t.
Proof.
  unfold adjust. destruct (L t <=? avg); [now cbn | ].
  destruct (avg <? L t); now cbn.
Qed.

Lemma step_keeps_configuration (s s1 : Sys) (a : action) (o : list reply) :
  step s a = Some (s1, o) ->
  L (thr s1) = L (thr s) /\ K (thr s1) = K (thr s) /\ R (thr s1) = R (thr s) /\
  interval (thr s1) = interval (thr s) /\ intervalStep (thr s1) = intervalStep (thr s) /\
  done (thr s1) = done (thr s).
Proof.
  destruct a as [ | | | ev]; cbn [step].
  - unfold Start_enter. destruct (started (thr s)); intros H; inversion H; subst; now cbn.
  - intros H; inversion H; subst; now cbn.
  - cbn [Allow Float64]. intros H; inversion H; subst; now cbn.
  - destruct (loop s) as [ | l | l err]; try discriminate.
    destruct (ready s l ev); [ | discriminate].
    destruct ev as [ | | x e]; cbn [loop_body].
    + intros H; inversion H; subst; now cbn.
    + destruct (stats l) as [ | x st]; intros H; inversion H; subst; cbn [thr].
      * now repeat split.
      * destruct (adjust_frame (thr s) (average (x :: st))) as (H1 & H2 & H3 & _).
        destruct (adjust_config (thr s) (average (x :: st))) as (H4 & H5 & H6).
        now repeat split.
    + destruct e; intros H; inversion H; subst; now cbn.
Qed.

(** X11.  Whatever the goroutines do, the configuration of a throttler stays as
    [New] made it: the limit, the gain, the two intervals, the unused [R],
    and the [done] channel, which therefore stays nil. *)
Theorem configuration_is_never_changed
        (acts : list action) (s s' : Sys) (out : list reply) :
  run s acts = Some (s', out) ->
  L (thr s') = L (thr s) /\ K (thr s') = K (thr s) /\ R (thr s') = R (thr s) /\
  interval (thr s') = interval (thr s) /\ intervalStep (thr s') = intervalStep (thr s) /\
  done (thr s') = done (thr s).
Proof.
  revert s out. induction acts as [ | a acts IH]; intros s out Hrun.
  - cbn in Hrun. inversion Hrun; subst. now repeat split.
  - cbn [run] in Hrun.
    destruct (step s a) as [[s1 o1] | ] eqn:Hstep; [ | discriminate].
    destruct (run s1 acts) as [[s2 o2] | ] eqn:Hrun1; [ | discriminate].
    inversion Hrun; subst s' out; clear Hrun.
    destruct (step_keeps_configuration _ _ _ _ Hstep) as (A1 & A2 & A3 & A4 & A5 & A6).
    destruct (IH _ _ Hrun1) as (B1 & B2 & B3 & B4 & B5 & B6).
    repeat split; congruence.
Qed.

Lemma configuration_is_never_changed_witness :
  exists s' out,
    run (boot (New 10 2 2000000 250000 (fun _ => 0.5)))
        [call_Start; fire (tick_istk 20 None); fire tick_itk; call_Allow; call_Stop]
    = Some (s', out) /\
    L (thr s') = 10 /\ K (thr s') = 2 /\ R (thr s') = 0 /\
    interval (thr s') = 2000000%Z /\ intervalStep (thr s') = 250000%Z /\
    done (thr s') = nil_chan.
Proof.
  do 2 eexists. split; [vm_compute; reflexivity | ].
  eapply (configuration_is_never_changed
           [call_Start; fire (tick_istk 20 None); fire tick_itk; call_Allow; call_Stop]
           (boot (New 10 2 2000000 250000 (fun _ => 0.5)))).
  vm_compute; reflexivity.
Defined.





(** *** Before the first evaluation tick *)

Lemma run_without_evaluation (acts : list action) (s s' : Sys) (out : list reply) :
  LoadPointer (thr s) = 100 -> unit_draws (rand (thr s)) ->
  forallb (fun a => negb (is_evaluation a)) acts = true ->
  run s acts = Some (s', out) ->
  LoadPointer (thr s') = 100 /\ forall b, In (Allow_returned b) out -> b = true.
Proof.
  revert s out. induction acts as [ | a acts IH]; intros s out Hr Hd Hq Hrun.
  - cbn in Hrun. inversion Hrun; subst. split; [assumption | intros b []].
  - cbn [forallb] in Hq. apply andb_true_iff in Hq. destruct Hq as [Ha Hq].
    cbn [run] in Hrun.
    destruct (step s a) as [[s1 o1] | ] eqn:Hstep; [ | discriminate].
    destruct (run s1 acts) as [[s2 o2] | ] eqn:Hrun1; [ | discriminate].
    inversion Hrun; subst s' out; clear Hrun.
    assert (Hinv : LoadPointer (thr s1) = 100 /\ unit_draws (rand (thr s1)) /\
                   forall b, In (Allow_returned b) o1 -> b = true).
    { destruct a as [ | | | ev]; cbn [step] in Hstep.
      - unfold Start_enter in Hstep.
        destruct (started (thr s)); inversion Hstep; subst; cbn [thr LoadPointer r rand].
        + split; [exact Hr | split; [exact Hd | ]].
          intros b [H | []]. discriminate H.
        + split; [reflexivity | split; [exact Hd | ]]. intros b [].
      - inversion Hstep; subst. cbn [thr].
        split; [exact Hr | split; [exact Hd | ]]. intros b [].
      - destruct (Hd (cursor (rand (thr s)))) as [H0 H1].
        destruct (F64Facts.mul_100_range _ H0 H1) as [_ Hlt].
        cbn [Allow Float64] in Hstep. rewrite Hr, Hlt in Hstep.
        inversion Hstep; subst. cbn [thr].
        split; [exact Hr | split].
        + intros n. apply (Hd n).
        + intros b [H | []]. now inversion H.
      - destruct (loop s) as [ | l | l err]; try discriminate.
        destruct (ready s l ev); [ | discriminate].
        destruct ev as [ | | x e]; try discriminate; cbn [loop_body] in Hstep.
        + inversion Hstep; subst. cbn [thr Start_exit LoadPointer r rand].
          split; [exact Hr | split; [exact Hd | ]].
          intros b [H | [H | []]]; discriminate H.
        + destruct e; inversion Hstep; subst; cbn [thr];
            (split; [exact Hr | split; [exact Hd | ]]); intros b []. }
    destruct Hinv as (Hr1 & Hd1 & Ho1).
    destruct (IH s1 o2 Hr1 Hd1 Hq Hrun1) as (Hr2 & Ho2).
    split; [assumption | ].
    intros b Hin. apply in_app_or in Hin. destruct Hin; auto.
Qed.

(** X13.  From [New] on and until an evaluation tick fires, every call of
    [Allow] returns [true], whether [Start] has entered its loop yet or not
    and however calls of [Start], [Stop] and sample ticks fall in between:
    [New] and [Start] both store 100. *)
Theorem allowed_until_first_evaluation
        (cpuLimit k : float) (interval intervalStep : Z) (seed : nat -> float)
        (acts : list action) (s : Sys) (out : list reply) :
  (forall n, (0 <=? seed n) = true /\ (seed n <? 1) = true) ->
  forallb (fun a => negb (is_evaluation a)) acts = true ->
  run (boot (New cpuLimit k interval intervalStep seed)) acts = Some (s, out) ->
  LoadPointer (thr s) = 100 /\ forall b, In (Allow_returned b) out -> b = true.
Proof.
  intros Hseed Hq Hrun.
  apply (run_without_evaluation acts (boot (New cpuLimit k interval intervalStep seed)));
    try assumption; reflexivity.
Qed.

Lemma allowed_until_first_evaluation_witness :
  exists s out,
    run (boot (New 10 2 2000000 250000 (fun _ => 0x1.fffffffffffffp-1)))
        [call_Allow; call_Start; call_Allow; fire (tick_istk 99 None); call_Start; call_Allow]
    = Some (s, out) /\
    LoadPointer (thr s) = 100 /\ forall b, In (Allow_returned b) out -> b = true.
Proof.
  do 2 eexists. split; [vm_compute; reflexivity | ].
  eapply (allowed_until_first_evaluation 10 2 2000000 250000 (fun _ => 0x1.fffffffffffffp-1)
           [call_Allow; call_Start; call_Allow; fire (tick_istk 99 None); call_Start;
            call_Allow]).
  - intros n. split; reflexivity.
  - reflexivity.
  - vm_compute; reflexivity.
Defined.

(** *** The random source *)

Lemma step_draws (s s1 : Sys) (a : action) (o : list reply) :
  step s a = Some (s1, o) ->
  draws (rand (thr s1)) = draws (rand (thr s)) /\
  cursor (rand (thr s1)) = (cursor (rand (thr s)) + Allow_calls [a])%nat /\
  Allow_answers o = Allow_calls [a].
Proof.
  intros Hstep. destruct a as [ | | | ev]; cbn [step] in Hstep.
  - unfold Start_enter in Hstep.
    destruct (started (thr s)); inversion Hstep; subst; cbn; auto.
  - inversion Hstep; subst. cbn. auto.
  - cbn [Allow Float64] in Hstep. inversion Hstep; subst. cbn.
    repeat split; auto. symmetry. apply Nat.add_1_r.
  - destruct (loop s) as [ | l | l err]; try discriminate.
    destruct (ready s l ev); [ | discriminate].
    destruct ev as [ | | x e]; cbn [loop_body] in Hstep.
    + inversion Hstep; subst. cbn. auto.
    + destruct (stats l); inversion Hstep; subst; cbn [thr].
      * cbn. auto.
      * destruct (adjust_frame (thr s) (average (f :: l0))) as (_ & _ & _ & _ & Hg).
        rewrite Hg. cbn. auto.
    + destruct e; inversion Hstep; subst; cbn; auto.
Qed.

(** X15.  Only [Allow] draws from the random source: over any schedule the
    generator has advanced by exactly the number of [Allow] calls, each of
    which got its answer, and the sequence itself is the one [New] seeded;
    [Start], [Stop] and the ticks of the loop take no draw. *)
Theorem only_Allow_draws (acts : list action) (s s' : Sys) (out : list reply) :
  run s acts = Some (s', out) ->
  draws (rand (thr s')) = draws (rand (thr s)) /\
  cursor (rand (thr s')) = (cursor (rand (thr s)) + Allow_calls acts)%nat /\
  Allow_answers out = Allow_calls acts.
Proof.
  revert s out. induction acts as [ | a acts IH]; intros s out Hrun.
  - cbn in Hrun. inversion Hrun; subst. cbn. auto.
  - cbn [run] in Hrun.
    destruct (step s a) as [[s1 o1] | ] eqn:Hstep; [ | discriminate].
    destruct (run s1 acts) as [[s2 o2] | ] eqn:Hrun1; [ | discriminate].
    inversion Hrun; subst s' out; clear Hrun.
    destruct (step_draws _ _ _ _ Hstep) as (Hd1 & Hc1 & Ho1).
    destruct (IH _ _ Hrun1) as (Hd2 & Hc2 & Ho2).
    assert (Hsplit : Allow_calls (a :: acts) = (Allow_calls [a] + Allow_calls acts)%nat).
    { unfold Allow_calls. cbn [filter]. destruct a; reflexivity. }
    split; [congruence | ]. split.
    + rewrite Hc2, Hc1, Hsplit. apply eq_sym, Nat.add_assoc.
    + unfold Allow_answers in *. rewrite filter_app, length_app, Ho1, Ho2.
      symmetry. exact Hsplit.
Qed.

Lemma only_Allow_draws_witness :
  exists s' out,
    run (boot (New 10 2 2000000 250000 (fun _ => 0.5)))
        [call_Allow; call_Start; fire (tick_istk 20 None); call_Allow; fire tick_itk;
         call_Allow; call_Stop]
    = Some (s', out) /\
    cursor (rand (thr s')) = 3%nat /\ Allow_answers out = 3%nat.
Proof.
  do 2 eexists. split; [vm_compute; reflexivity | ].
  edestruct (only_Allow_draws
               [call_Allow; call_Start; fire (tick_istk 20 None); call_Allow; fire tick_itk;
                call_Allow; call_Stop]
               (boot (New 10 2 2000000 250000 (fun _ => 0.5)))) as (_ & Hc & Ho).
  - vm_compute; reflexivity.
  - split; [exact Hc | exact Ho].
Defined.

(** *** Stopping, had the channel been made *)

(** X14.  On a throttler whose [done] channel is a made one (which [New] does not
    provide), [Stop] reaches the running loop: the loop returns [nil] and
    [Stop] returns; a [Start] after that runs again, with the rate back at
    100, an empty buffer and fresh tickers, whatever the rate and the buffer
    were. *)
Theorem Stop_then_Start_resets (s : Sys) (l : Loop) :
  loop s = looping l -> done (thr s) = made_chan ->
  exists s',
    run s [call_Stop; fire recv_done; call_Start]
    = Some (s', [Stop_returned; Start_returned None]) /\
    LoadPointer (thr s') = 100 /\ started (thr s') = true /\
    loop s' = looping {| stats := []; itk := true; istk := true; logged := [] |} /\
    senders s' = senders s.
Proof.
  intros Hl Hd. eexists. cbn [run step thr loop senders]. rewrite Hl.
  cbn [ready thr senders]. rewrite Hd. cbn [Nat.eqb negb loop_body].
  cbn [thr loop senders Start_exit]. unfold Start_enter. cbn [started set_started].
  cbn [app Nat.pred]. split; [reflexivity | ]. now cbn.
Qed.

Lemma Stop_then_Start_resets_witness :
  exists s',
    run {| thr := mkT 10 0 2 37.5 4 (mkRand (fun _ => 0.5) 0) 2000000 250000 made_chan true;
           loop := looping {| stats := [80; 90]; itk := true; istk := true; logged := [] |};
           senders := 0 |}
        [call_Stop; fire recv_done; call_Start]
    = Some (s', [Stop_returned; Start_returned None]) /\
    LoadPointer (thr s') = 100 /\ started (thr s') = true /\
    loop s' = looping {| stats := []; itk := true; istk := true; logged := [] |} /\
    senders s' = 0%nat.
Proof.
  apply (Stop_then_Start_resets
           {| thr := mkT 10 0 2 37.5 4 (mkRand (fun _ => 0.5) 0) 2000000 250000 made_chan true;
              loop := looping {| stats := [80; 90]; itk := true; istk := true; logged := [] |};
              senders := 0 |}
           {| stats := [80; 90]; itk := true; istk := true; logged := [] |});
    reflexivity.
Defined.
